(** * The manifold guard of Easy3D (easy3d/core/manifold_guard.cpp)

    A shallow embedding of [ManifoldGuard]: the session state is a record,
    every member function is a function on that record, and the half-edge
    mesh the guard drives is an interface (a type class) with one executable
    instance used to run the scenarios of the specification. *)

From stdpp Require Import base option list gmap strings pretty.
From Stdlib Require Import ZArith NArith Lia.

Local Open Scope Z_scope.
#[local] Set Warnings "-clear-no-such-hyp".

(** ** Handles *)

(** Modelled from the spec: the handle types [SurfaceMesh::Vertex],
    [SurfaceMesh::Halfedge] and [SurfaceMesh::Face], which surface_mesh.h
    declares and the sources use without defining. A handle is opaque and
    may be invalid; it is kept as the [int] index it wraps, -1 for the
    default-constructed handle, which is the invalid one that a refused
    insertion returns. *)

Record Vertex := mkVertex { v_idx : Z }.
Record Halfedge := mkHalfedge { h_idx : Z }.
Record Face := mkFace { f_idx : Z }.

Global Instance Vertex_eq_dec : EqDecision Vertex.
Proof. solve_decision. Defined.
Global Instance Halfedge_eq_dec : EqDecision Halfedge.
Proof. solve_decision. Defined.
Global Instance Face_eq_dec : EqDecision Face.
Proof. solve_decision. Defined.

Global Instance Vertex_countable : Countable Vertex.
Proof. refine (inj_countable' v_idx mkVertex _). by intros []. Defined.

Definition invalid_vertex : Vertex := mkVertex (-1).
Definition invalid_halfedge : Halfedge := mkHalfedge (-1).
Definition invalid_face : Face := mkFace (-1).

Definition vertex_is_valid (v : Vertex) : bool := negb (v_idx v =? -1).
Definition halfedge_is_valid (h : Halfedge) : bool := negb (h_idx h =? -1).
Definition face_is_valid (f : Face) : bool := negb (f_idx f =? -1).

(** [SurfaceMesh::Vertex(vertices[i])]: an [unsigned int] index converted to
    the [int] the handle stores (two's complement, 32 bits). *)
Definition int_of_unsigned (u : N) : Z :=
  let z := Z.of_N u mod 2 ^ 32 in
  if z <? 2 ^ 31 then z else z - 2 ^ 32.

Definition vertex_of_index (u : N) : Vertex := mkVertex (int_of_unsigned u).

(** The directed edges of a polygon, the closing edge from the last vertex
    back to the first included. *)
Definition cyclic_edges (vs : list Vertex) : list (Vertex * Vertex) :=
  match vs with
  | [] => []
  | v :: rest => zip vs (rest ++ [v])
  end.

(** ** The mesh collaborator *)

(** Modelled from the spec: the class [SurfaceMesh], which the guard calls
    and the sources do not contain. Section 6 of the specification lists
    what the guard consumes; each item is a member below, at the name the
    guard calls it by. Mutating members return the new mesh. [vertices] is
    the range a range-based [for] walks; the guard deletes only the vertex
    it is visiting, and only when that vertex has no edge, so the range is
    taken when the loop starts.

    [SurfaceMesh::add_vertex] takes its argument by reference, and the guard
    calls it in two ways. [mesh_add_vertex m p] is the call with a position
    that is no part of the mesh: the guard's [add_vertex] forwards the one
    its caller holds. [mesh_add_vertex_from m v] is the call
    [add_vertex(points[v])] of line 248: its argument is the entry of [v] in
    the position table of the mesh itself, the table the call is about to
    grow. Which position the new vertex gets there is for the mesh to say;
    nothing in the interface makes it the position [v] had.

    Every member is a total function: a handle that names no vertex of the
    mesh is answered like any other. What the mesh does with such a handle
    (section 7: it "throws or asserts") is not modelled, and a statement
    that needs handles to name vertices says so. *)

Class SurfaceMesh (vec3 Mesh : Type) := {
  mesh_add_vertex : Mesh → vec3 → Mesh * Vertex;
  mesh_add_vertex_from : Mesh → Vertex → Mesh * Vertex;
  mesh_add_face : Mesh → list Vertex → Mesh * Face;
  find_halfedge : Mesh → Vertex → Vertex → Halfedge;
  is_boundary_h : Mesh → Halfedge → bool;
  is_boundary_v : Mesh → Vertex → bool;
  is_manifold : Mesh → Vertex → bool;
  is_isolated : Mesh → Vertex → bool;
  delete_vertex : Mesh → Vertex → Mesh;
  garbage_collection : Mesh → Mesh;
  vertices : Mesh → list Vertex;
  points : Mesh → Vertex → vec3
}.

(** ** The guard *)

Section guard.
Context {vec3 Mesh : Type} `{!SurfaceMesh vec3 Mesh}.

(** The members of the class, with the mesh the guard points to held in
    the state. The five counters count events and are kept as natural
    numbers. *)
Record ManifoldGuard := mkGuard {
  mesh_ : Mesh;
  num_faces_less_three_vertices_ : N;
  num_faces_duplicated_vertices_ : N;
  num_non_manifold_edges_ : N;
  num_non_manifold_vertices_ : N;
  num_isolated_vertices_ : N;
  input_face_vertices_ : list Vertex;
  face_vertices_ : list Vertex;
  copies_ : gmap Vertex (list Vertex)
}.

(** The five counters, in the order [finish] reports them. *)
Definition counters (g : ManifoldGuard) : list N :=
  [ num_isolated_vertices_ g; num_faces_less_three_vertices_ g;
    num_faces_duplicated_vertices_ g; num_non_manifold_edges_ g;
    num_non_manifold_vertices_ g ].

(** Field updates. *)
Definition set_mesh (m : Mesh) (g : ManifoldGuard) : ManifoldGuard :=
  mkGuard m (num_faces_less_three_vertices_ g) (num_faces_duplicated_vertices_ g)
    (num_non_manifold_edges_ g) (num_non_manifold_vertices_ g)
    (num_isolated_vertices_ g) (input_face_vertices_ g) (face_vertices_ g) (copies_ g).

Definition set_input_face_vertices (l : list Vertex) (g : ManifoldGuard) : ManifoldGuard :=
  mkGuard (mesh_ g) (num_faces_less_three_vertices_ g) (num_faces_duplicated_vertices_ g)
    (num_non_manifold_edges_ g) (num_non_manifold_vertices_ g)
    (num_isolated_vertices_ g) l (face_vertices_ g) (copies_ g).

Definition set_face_vertices (l : list Vertex) (g : ManifoldGuard) : ManifoldGuard :=
  mkGuard (mesh_ g) (num_faces_less_three_vertices_ g) (num_faces_duplicated_vertices_ g)
    (num_non_manifold_edges_ g) (num_non_manifold_vertices_ g)
    (num_isolated_vertices_ g) (input_face_vertices_ g) l (copies_ g).

Definition set_copies (c : gmap Vertex (list Vertex)) (g : ManifoldGuard) : ManifoldGuard :=
  mkGuard (mesh_ g) (num_faces_less_three_vertices_ g) (num_faces_duplicated_vertices_ g)
    (num_non_manifold_edges_ g) (num_non_manifold_vertices_ g)
    (num_isolated_vertices_ g) (input_face_vertices_ g) (face_vertices_ g) c.

Definition incr_faces_less_three_vertices (g : ManifoldGuard) : ManifoldGuard :=
  mkGuard (mesh_ g) (num_faces_less_three_vertices_ g + 1)%N (num_faces_duplicated_vertices_ g)
    (num_non_manifold_edges_ g) (num_non_manifold_vertices_ g)
    (num_isolated_vertices_ g) (input_face_vertices_ g) (face_vertices_ g) (copies_ g).

Definition incr_faces_duplicated_vertices (g : ManifoldGuard) : ManifoldGuard :=
  mkGuard (mesh_ g) (num_faces_less_three_vertices_ g) (num_faces_duplicated_vertices_ g + 1)%N
    (num_non_manifold_edges_ g) (num_non_manifold_vertices_ g)
    (num_isolated_vertices_ g) (input_face_vertices_ g) (face_vertices_ g) (copies_ g).

Definition incr_non_manifold_edges (g : ManifoldGuard) : ManifoldGuard :=
  mkGuard (mesh_ g) (num_faces_less_three_vertices_ g) (num_faces_duplicated_vertices_ g)
    (num_non_manifold_edges_ g + 1)%N (num_non_manifold_vertices_ g)
    (num_isolated_vertices_ g) (input_face_vertices_ g) (face_vertices_ g) (copies_ g).

Definition incr_non_manifold_vertices (g : ManifoldGuard) : ManifoldGuard :=
  mkGuard (mesh_ g) (num_faces_less_three_vertices_ g) (num_faces_duplicated_vertices_ g)
    (num_non_manifold_edges_ g) (num_non_manifold_vertices_ g + 1)%N
    (num_isolated_vertices_ g) (input_face_vertices_ g) (face_vertices_ g) (copies_ g).

Definition incr_isolated_vertices (g : ManifoldGuard) : ManifoldGuard :=
  mkGuard (mesh_ g) (num_faces_less_three_vertices_ g) (num_faces_duplicated_vertices_ g)
    (num_non_manifold_edges_ g) (num_non_manifold_vertices_ g)
    (num_isolated_vertices_ g + 1)%N (input_face_vertices_ g) (face_vertices_ g) (copies_ g).

(** The part of the state that is neither the mesh nor a counter. *)
Definition same_buffers (g g' : ManifoldGuard) : Prop :=
  input_face_vertices_ g' = input_face_vertices_ g ∧
  face_vertices_ g' = face_vertices_ g ∧
  copies_ g' = copies_ g.

(** The copy relation only grows: an entry keeps its key and its list is
    extended at the end. *)
Definition copies_grow (c c' : gmap Vertex (list Vertex)) : Prop :=
  ∀ k l, c !! k = Some l → ∃ l', c' !! k = Some (l ++ l').

(** What edge resolution may change after the counter: the mesh, the
    entries of [face_vertices_] (not their number) and, by appending, the
    copy relation. *)
Definition edge_step (g g' : ManifoldGuard) : Prop :=
  input_face_vertices_ g' = input_face_vertices_ g ∧
  length (face_vertices_ g') = length (face_vertices_ g) ∧
  counters g' = counters g ∧
  copies_grow (copies_ g) (copies_ g').

(** Both positions are inside both buffers. *)
Definition in_range (g : ManifoldGuard) (s t : nat) : Prop :=
  (s < length (face_vertices_ g))%nat ∧ (t < length (face_vertices_ g))%nat ∧
  length (input_face_vertices_ g) = length (face_vertices_ g).

(** *** [begin] *)
Definition begin (g : ManifoldGuard) : ManifoldGuard :=
  mkGuard (mesh_ g) 0%N 0%N 0%N 0%N 0%N [] [] ∅.

(** *** [add_vertex] *)
Definition add_vertex (g : ManifoldGuard) (p : vec3) : ManifoldGuard * Vertex :=
  let '(m, v) := mesh_add_vertex (mesh_ g) p in (set_mesh m g, v).

(** *** [halfedge_is_legel] *)
Definition halfedge_is_legel (m : Mesh) (s t : Vertex) : bool :=
  let h := find_halfedge m s t in
  if halfedge_is_valid h && negb (is_boundary_h m h) then false
  else if negb (is_boundary_v m s) || negb (is_boundary_v m t) then false
  else true.

(** *** [copy_vertex]

    Line 247 fetches the position table and line 248 hands its entry
    [points[v]] to [add_vertex] as it is, by reference; no copy of the
    position is taken first.
    [copies_[v].push_back(new_v)]: [operator[]] creates the empty entry
    when [v] has none yet. *)
Definition copy_vertex (g : ManifoldGuard) (v : Vertex) : ManifoldGuard * Vertex :=
  let '(m, new_v) := mesh_add_vertex_from (mesh_ g) v in
  (set_copies (<[v := default [] (copies_ g !! v) ++ [new_v]]> (copies_ g)) (set_mesh m g),
   new_v).

(** *** [find_or_duplicate_edge]

    Reading [face_vertices_[i]] or [input_face_vertices_[i]] past the end
    of the vector is undefined behaviour: the model returns [None] there.
    Within the function body a [return] is [Done], reaching the end of a
    block is [Next]. *)
Inductive flow := Done (g : ManifoldGuard) | Next (g : ManifoldGuard).

Definition flow_guard (r : flow) : ManifoldGuard :=
  match r with Done g => g | Next g => g end.

Definition and_then (r : option flow) (k : ManifoldGuard → option flow) : option flow :=
  match r with
  | Some (Next g) => k g
  | other => other
  end.

(** Lines 169-177: the loop over the copies of [face_vertices_[s]]. *)
Fixpoint try_copies_of_s (g : ManifoldGuard) (s t : nat) (l : list Vertex) : option flow :=
  match l with
  | [] => Some (Next g)
  | v :: l' =>
      vt ← face_vertices_ g !! t;
      if halfedge_is_legel (mesh_ g) v vt
      then Some (Done (set_face_vertices (<[s := v]> (face_vertices_ g)) g))
      else try_copies_of_s g s t l'
  end.

(** Lines 182-190: the loop over the copies of [face_vertices_[t]]. *)
Fixpoint try_copies_of_t (g : ManifoldGuard) (s t : nat) (l : list Vertex) : option flow :=
  match l with
  | [] => Some (Next g)
  | v :: l' =>
      vs ← face_vertices_ g !! s;
      if halfedge_is_legel (mesh_ g) vs v
      then Some (Done (set_face_vertices (<[t := v]> (face_vertices_ g)) g))
      else try_copies_of_t g s t l'
  end.

(** Lines 195-206: the nested loops over both lists of copies. *)
Fixpoint try_copies_inner (g : ManifoldGuard) (s t : nat) (vs : Vertex) (lt : list Vertex)
    : option flow :=
  match lt with
  | [] => Some (Next g)
  | vt :: lt' =>
      if halfedge_is_legel (mesh_ g) vs vt
      then Some (Done (set_face_vertices (<[t := vt]> (<[s := vs]> (face_vertices_ g))) g))
      else try_copies_inner g s t vs lt'
  end.

Fixpoint try_copies_of_both (g : ManifoldGuard) (s t : nat) (ls lt : list Vertex)
    : option flow :=
  match ls with
  | [] => Some (Next g)
  | vs :: ls' =>
      and_then (try_copies_inner g s t vs lt) (λ g', try_copies_of_both g' s t ls' lt)
  end.

(** Lines 168-178. *)
Definition step_copies_of_s (g : ManifoldGuard) (s t : nat) : option flow :=
  vs ← face_vertices_ g !! s;
  match copies_ g !! vs with
  | Some l => try_copies_of_s g s t l
  | None => Some (Next g)
  end.

(** Lines 181-191. *)
Definition step_copies_of_t (g : ManifoldGuard) (s t : nat) : option flow :=
  vt ← face_vertices_ g !! t;
  match copies_ g !! vt with
  | Some l => try_copies_of_t g s t l
  | None => Some (Next g)
  end.

(** Lines 194-207. *)
Definition step_copies_of_both (g : ManifoldGuard) (s t : nat) : option flow :=
  vs ← face_vertices_ g !! s;
  match copies_ g !! vs with
  | Some ls =>
      vt ← face_vertices_ g !! t;
      match copies_ g !! vt with
      | Some lt => try_copies_of_both g s t ls lt
      | None => Some (Next g)
      end
  | None => Some (Next g)
  end.

(** [face_vertices_[i] = copy_vertex(orig)]. *)
Definition duplicate_endpoint (g : ManifoldGuard) (i : nat) (orig : Vertex) : ManifoldGuard :=
  let '(g1, new_v) := copy_vertex g orig in
  set_face_vertices (<[i := new_v]> (face_vertices_ g1)) g1.

(** Lines 211-215. *)
Definition step_duplicate_s (g : ManifoldGuard) (s t : nat) : option flow :=
  vs ← face_vertices_ g !! s;
  if negb (is_boundary_v (mesh_ g) vs) then
    orig ← input_face_vertices_ g !! s;
    let g2 := duplicate_endpoint g s orig in
    vs' ← face_vertices_ g2 !! s;
    vt' ← face_vertices_ g2 !! t;
    if halfedge_is_legel (mesh_ g2) vs' vt' then Some (Done g2) else Some (Next g2)
  else Some (Next g).

(** Lines 216-220. *)
Definition step_duplicate_t (g : ManifoldGuard) (s t : nat) : option flow :=
  vt ← face_vertices_ g !! t;
  if negb (is_boundary_v (mesh_ g) vt) then
    orig ← input_face_vertices_ g !! t;
    let g2 := duplicate_endpoint g t orig in
    vs' ← face_vertices_ g2 !! s;
    vt' ← face_vertices_ g2 !! t;
    if halfedge_is_legel (mesh_ g2) vs' vt' then Some (Done g2) else Some (Next g2)
  else Some (Next g).

(** Lines 223-224 and 225-226: one endpoint of the last resort. *)
Definition copy_if_original (g : ManifoldGuard) (i : nat) : option ManifoldGuard :=
  v ← face_vertices_ g !! i;
  orig ← input_face_vertices_ g !! i;
  if decide (v = orig) then Some (duplicate_endpoint g i orig) else Some g.

(** Lines 222-226. *)
Definition last_resort (g : ManifoldGuard) (s t : nat) : option ManifoldGuard :=
  g1 ← copy_if_original g s;
  copy_if_original g1 t.

(** Lines 165-220: everything between the counter and the last resort. *)
Definition search_and_duplicate (g : ManifoldGuard) (s t : nat) : option flow :=
  and_then (step_copies_of_s g s t) (λ g1,
  and_then (step_copies_of_t g1 s t) (λ g2,
  and_then (step_copies_of_both g2 s t) (λ g3,
  and_then (step_duplicate_s g3 s t) (λ g4,
  step_duplicate_t g4 s t)))).

Definition find_or_duplicate_edge (g : ManifoldGuard) (s t : nat) : option ManifoldGuard :=
  vs ← face_vertices_ g !! s;
  vt ← face_vertices_ g !! t;
  if negb (halfedge_is_legel (mesh_ g) vs vt) then
    r ← and_then (search_and_duplicate (incr_non_manifold_edges g) s t)
           (λ g5, Done <$> last_resort g5 s t);
    Some (flow_guard r)
  else Some g.

(** *** Edge resolution as the specification words it

    The definition below follows section 4.3 of the specification, not the
    source; it is what [find_or_duplicate_edge] is compared with. *)

(** The substitutes for the pair [(vs, vt)], in the order they are tried:
    each duplicate of [vs] with [vt]; [vs] with each duplicate of [vt];
    every duplicate of [vs] with every duplicate of [vt], when both have
    at least one. *)
Definition substitutes (c : gmap Vertex (list Vertex)) (vs vt : Vertex)
    : list (Vertex * Vertex) :=
  let ds := default [] (c !! vs) in
  let dt := default [] (c !! vt) in
  ((λ d, (d, vt)) <$> ds) ++ ((λ d, (vs, d)) <$> dt) ++
  (if bool_decide (ds ≠ [] ∧ dt ≠ []) then list_prod ds dt else []).

(** A duplication "creates a brand-new vertex [...], registers it in the
    copy relation under the original vertex, and returns it for use in the
    current face". The state after the endpoint at position [i] has been
    given a new duplicate of [orig], field by field: the mesh is the one
    the vertex was made in, the working list has the new vertex at position
    [i], and the list of [orig] in the copy relation ends with it; the
    counters and the input list stay. The new vertex is the one the mesh
    makes from the entry of [orig]; where it sits is not said here. *)
Definition duplicated (g : ManifoldGuard) (i : nat) (orig : Vertex) : ManifoldGuard :=
  let made := mesh_add_vertex_from (mesh_ g) orig in
  mkGuard made.1
    (num_faces_less_three_vertices_ g) (num_faces_duplicated_vertices_ g)
    (num_non_manifold_edges_ g) (num_non_manifold_vertices_ g)
    (num_isolated_vertices_ g)
    (input_face_vertices_ g)
    (<[i := made.2]> (face_vertices_ g))
    (<[orig := default [] (copies_ g !! orig) ++ [made.2]]> (copies_ g)).

(** Forced duplication of the endpoint at position [i] of the edge
    [(s, t)]: nothing when the vertex there is a boundary vertex; otherwise
    a new duplicate of the original input vertex takes its place and the
    edge is tested again. *)
Definition duplicate_and_retest (g : ManifoldGuard) (i s t : nat) : option flow :=
  v ← face_vertices_ g !! i;
  if is_boundary_v (mesh_ g) v then Some (Next g)
  else
    orig ← input_face_vertices_ g !! i;
    let g' := duplicated g i orig in
    a ← face_vertices_ g' !! s;
    b ← face_vertices_ g' !! t;
    Some (if halfedge_is_legel (mesh_ g') a b then Done g' else Next g').

(** The last resort: whichever of the two endpoints still is its original
    input vertex is duplicated. *)
Definition duplicate_originals (g : ManifoldGuard) (s t : nat) : option ManifoldGuard :=
  vs ← face_vertices_ g !! s;
  os ← input_face_vertices_ g !! s;
  vt ← face_vertices_ g !! t;
  ot ← input_face_vertices_ g !! t;
  let g1 := if decide (vs = os) then duplicated g s os else g in
  Some (if decide (vt = ot) then duplicated g1 t ot else g1).

(** Edge resolution in the words of the specification: a legal edge is left
    alone; an illegal one is counted, then the first legal pair among the
    substitutes replaces it; failing that the source is duplicated if it is
    not a boundary vertex, then the target likewise, each time with a new
    test of the edge; the last resort ends it. *)
Definition find_or_duplicate_edge_spec (g : ManifoldGuard) (s t : nat)
    : option ManifoldGuard :=
  vs ← face_vertices_ g !! s;
  vt ← face_vertices_ g !! t;
  if halfedge_is_legel (mesh_ g) vs vt then Some g
  else
    let g0 := incr_non_manifold_edges g in
    match find (λ e, halfedge_is_legel (mesh_ g0) e.1 e.2)
               (substitutes (copies_ g0) vs vt) with
    | Some e =>
        Some (set_face_vertices (<[t := e.2]> (<[s := e.1]> (face_vertices_ g0))) g0)
    | None =>
        flow_guard <$>
          and_then (duplicate_and_retest g0 s s t) (λ g1,
          and_then (duplicate_and_retest g1 t s t) (λ g2,
          Done <$> duplicate_originals g2 s t))
    end.

(** Equal in everything but the copy relation. *)
Definition same_but_copies (g g' : ManifoldGuard) : Prop :=
  set_copies ∅ g' = set_copies ∅ g.



(** A step of the resolution returns, and its result is an [edge_step]. *)
Definition step_ok (g : ManifoldGuard) (r : option flow) : Prop :=
  ∃ f, r = Some f ∧ edge_step g (flow_guard f).

(** *** [add_face] *)

(** Lines 125-130: the inner loop, [vertices[i]] against the entries after it. *)
Fixpoint equals_a_later_entry (x : N) (rest : list N) : bool :=
  match rest with
  | [] => false
  | y :: rest' => if (x =? y)%N then true else equals_a_later_entry x rest'
  end.

(** Lines 124-131: the outer loop. *)
Fixpoint has_duplicated_vertices (vs : list N) : bool :=
  match vs with
  | [] => false
  | x :: rest => if equals_a_later_entry x rest then true else has_duplicated_vertices rest
  end.

(** [std::vector<Vertex>::resize]: truncate, or pad with default handles. *)
Definition resize_vertices (n : nat) (l : list Vertex) : list Vertex :=
  take n l ++ replicate (n - length l) invalid_vertex.

(** Lines 135-136: one iteration of the loop that fills both buffers. *)
Definition fill_entry (vs : list N) (g : ManifoldGuard) (i : nat) : ManifoldGuard :=
  match vs !! i with
  | Some u =>
      let g1 := set_face_vertices (<[i := vertex_of_index u]> (face_vertices_ g)) g in
      set_input_face_vertices (<[i := vertex_of_index u]> (input_face_vertices_ g1)) g1
  | None => g
  end.

(** Lines 142-146: the loop over the edges; [t = (s + 1) % nb_vertices].
    A list that passed the scan for repeated indices has at most 2^32
    entries, so [s] and [t] reach [find_or_duplicate_edge] as they are. *)
Fixpoint resolve_edges (g : ManifoldGuard) (nb : nat) (ss : list nat) : option ManifoldGuard :=
  match ss with
  | [] => Some g
  | s :: ss' =>
      g' ← find_or_duplicate_edge g s ((s + 1) `mod` nb)%nat;
      resolve_edges g' nb ss'
  end.

(** The state after lines 133-136: both buffers hold the caller's vertices. *)
Definition with_face (g : ManifoldGuard) (vs : list N) : ManifoldGuard :=
  set_input_face_vertices (vertex_of_index <$> vs)
    (set_face_vertices (vertex_of_index <$> vs) g).

(** What resolving [n] edges may change: as [edge_step], except that the
    non-manifold-edge counter may go up by one per edge. *)
Definition edges_resolved (n : nat) (g g' : ManifoldGuard) : Prop :=
  input_face_vertices_ g' = input_face_vertices_ g ∧
  length (face_vertices_ g') = length (face_vertices_ g) ∧
  num_isolated_vertices_ g' = num_isolated_vertices_ g ∧
  num_faces_less_three_vertices_ g' = num_faces_less_three_vertices_ g ∧
  num_faces_duplicated_vertices_ g' = num_faces_duplicated_vertices_ g ∧
  num_non_manifold_vertices_ g' = num_non_manifold_vertices_ g ∧
  (num_non_manifold_edges_ g ≤ num_non_manifold_edges_ g'
     ≤ num_non_manifold_edges_ g + N.of_nat n)%N ∧
  copies_grow (copies_ g) (copies_ g').

Definition add_face (g : ManifoldGuard) (vs : list N) : option (ManifoldGuard * Face) :=
  let nb_vertices := length vs in
  if (nb_vertices <? 3)%nat then Some (incr_faces_less_three_vertices g, invalid_face)
  else if has_duplicated_vertices vs then Some (incr_faces_duplicated_vertices g, invalid_face)
  else
    let g1 := set_input_face_vertices (resize_vertices nb_vertices (input_face_vertices_ g)) g in
    let g2 := set_face_vertices (resize_vertices nb_vertices (face_vertices_ g1)) g1 in
    let g3 := foldl (fill_entry vs) g2 (seq 0 nb_vertices) in
    g4 ← resolve_edges g3 nb_vertices (seq 0 nb_vertices);
    let '(m, face) := mesh_add_face (mesh_ g4) (face_vertices_ g4) in
    Some (set_mesh m g4, face).

(** *** [finish] *)

(** ["\n\t"] *)
Definition newline_tab : string := String (Ascii.ascii_of_nat 10) (String (Ascii.ascii_of_nat 9) EmptyString).

(** One [if (count > 0) { msg += ...; report = true; }] block;
    [std::to_string] writes the count in decimal. *)
Definition report_line (count : N) (text : string) (acc : string * bool) : string * bool :=
  if (0 <? count)%N then (acc.1 +:+ newline_tab +:+ pretty count +:+ text, true) else acc.

(** Lines 61-64: the body of the first loop. *)
Definition delete_if_isolated (g : ManifoldGuard) (v : Vertex) : ManifoldGuard :=
  if is_isolated (mesh_ g) v
  then incr_isolated_vertices (set_mesh (delete_vertex (mesh_ g) v) g)
  else g.

(** Lines 89-90: the body of the second loop. *)
Definition count_if_non_manifold (g : ManifoldGuard) (v : Vertex) : ManifoldGuard :=
  if negb (is_manifold (mesh_ g) v) then incr_non_manifold_vertices g else g.

(** The second component is what [LOG_IF(WARNING, report) << msg] writes:
    nothing when [report] is false. *)
Definition finish (g : ManifoldGuard) : ManifoldGuard * option string :=
  let acc0 := ("mesh has topological issues:"%string, false) in
  let g1 := foldl delete_if_isolated g (vertices (mesh_ g)) in
  let g2 := set_mesh (garbage_collection (mesh_ g1)) g1 in
  let acc1 := report_line (num_isolated_vertices_ g2) " isolated vertices (removed)" acc0 in
  let acc2 := report_line (num_faces_less_three_vertices_ g2)
                " faces with less than 3 vertices (ignored)" acc1 in
  let acc3 := report_line (num_faces_duplicated_vertices_ g2)
                " faces with duplicated vertices (ignored)" acc2 in
  let acc4 := report_line (num_non_manifold_edges_ g2) " non_manifold edges (fixed)" acc3 in
  let g3 := foldl count_if_non_manifold g2 (vertices (mesh_ g2)) in
  let acc5 := report_line (num_non_manifold_vertices_ g3)
                " non_manifold vertices (not fixed)" acc4 in
  (g3, if acc5.2 then Some acc5.1 else None).

(** *** What the guard relies on from the mesh

    Facts about the collaborator, stated over the interface; each is a
    hypothesis of the theorem that needs it and is proved for the
    executable mesh. *)

(** Modelled from the spec: "inserts a new vertex at the given 3D position"
    (section 4.1). The vertex a vertex insertion returns sits at the
    position given. *)
Definition add_vertex_keeps_position : Prop :=
  ∀ (m : Mesh) (p : vec3),
    points (mesh_add_vertex m p).1 (mesh_add_vertex m p).2 = p.

(** Modelled from the spec: a half-edge that exists "is either a boundary
    half-edge (its face slot is empty) or an interior one (bound to a face)"
    (section 3). After a face insertion that returned a valid handle, every
    directed edge of the face is a half-edge bound to a face. *)
Definition inserted_face_is_interior : Prop :=
  ∀ (m : Mesh) (vs : list Vertex) (a b : Vertex),
    face_is_valid (mesh_add_face m vs).2 = true →
    (a, b) ∈ cyclic_edges vs →
    halfedge_is_valid (find_halfedge (mesh_add_face m vs).1 a b) = true ∧
    is_boundary_h (mesh_add_face m vs).1 (find_halfedge (mesh_add_face m vs).1 a b) = false.

(** Modelled from the spec: an isolated vertex is "a vertex with no incident
    edges" (section 4.1). The vertex range lists a vertex once, and deleting
    an isolated vertex leaves the other vertices as isolated, or not, as
    they were. *)
Definition deleting_isolated_is_local : Prop :=
  (∀ m : Mesh, NoDup (vertices m)) ∧
  (∀ (m : Mesh) (v w : Vertex),
    is_isolated m v = true → w ≠ v →
    is_isolated (delete_vertex m v) w = is_isolated m w).

(** *** Sessions

    The states a construction session goes through: [begin], then any
    number of [add_vertex] and [add_face] calls. *)
Inductive in_session : ManifoldGuard → Prop :=
  | session_begin g : in_session (begin g)
  | session_add_vertex g p : in_session g → in_session (add_vertex g p).1
  | session_add_face g vs g' f :
      in_session g → add_face g vs = Some (g', f) → in_session g'.

End guard.

Global Arguments ManifoldGuard : clear implicits.
Global Arguments flow : clear implicits.

(** ** Further vocabulary for the guard *)

Section guard_more.
Context {vec3 Mesh : Type} `{!SurfaceMesh vec3 Mesh}.

(** [add_face] for each index list in turn, the handles collected. *)
Fixpoint add_faces_in_turn (g : ManifoldGuard Mesh) (fs : list (list N))
    : option (ManifoldGuard Mesh * list Face) :=
  match fs with
  | [] => Some (g, [])
  | vs :: fs' =>
      '(g1, f) ← add_face g vs;
      '(g2, hs) ← add_faces_in_turn g1 fs';
      Some (g2, f :: hs)
  end.

(** An index list [add_face] refuses for having fewer than three entries. *)
Definition too_few (vs : list N) : bool := (length vs <? 3)%nat.

(** An index list [add_face] refuses for a repeated entry. *)
Definition repeated (vs : list N) : bool :=
  negb (length vs <? 3)%nat && has_duplicated_vertices vs.

(** The entries of [face_vertices_] away from positions [s] and [t] are as
    they were. *)
Definition only_positions_touched (s t : nat) (g g' : ManifoldGuard Mesh) : Prop :=
  ∀ i, i ≠ s → i ≠ t → face_vertices_ g' !! i = face_vertices_ g !! i.

(** What [copy_vertex] does to the mesh, for the vertices [os] in turn: one
    call [add_vertex(points[o])] for each. *)
Definition insert_copies (m : Mesh) (os : list Vertex) : Mesh :=
  foldl (λ m' o, (mesh_add_vertex_from m' o).1) m os.

(** The edge at positions [s] and [t] of the working list is legal in the
    mesh of the state. *)
Definition legal_at (g : ManifoldGuard Mesh) (s t : nat) : Prop :=
  ∃ a b, face_vertices_ g !! s = Some a ∧ face_vertices_ g !! t = Some b ∧
    halfedge_is_legel (mesh_ g) a b = true.

(** The texts of the message of [finish], in the order of [counters]. *)
Definition report_texts : list string :=
  [ " isolated vertices (removed)"; " faces with less than 3 vertices (ignored)";
    " faces with duplicated vertices (ignored)"; " non_manifold edges (fixed)";
    " non_manifold vertices (not fixed)" ]%string.

(** One line of the message for each counter that is not zero. *)
Definition report_lines (cs : list N) : list string :=
  (λ ct, newline_tab +:+ pretty ct.1 +:+ ct.2) <$>
    filter (λ ct, ct.1 ≠ 0%N) (zip cs report_texts).

(** Modelled from the spec: inserting a vertex (section 6) adds one; the
    vertices the mesh had are vertices of the mesh after it, whichever way
    the position was handed over. *)
Definition vertex_insertion_keeps_vertices : Prop :=
  (∀ (m : Mesh) (p : vec3) (w : Vertex),
     w ∈ vertices m → w ∈ vertices (mesh_add_vertex m p).1) ∧
  (∀ (m : Mesh) (o w : Vertex),
     w ∈ vertices m → w ∈ vertices (mesh_add_vertex_from m o).1).

(** Modelled from the spec: insertion gives a "new vertex handle" (section
    6): one the mesh did not have. The vertex made for a duplication is not
    among the vertices of the mesh before the insertion and is among them
    after it. *)
Definition duplicate_is_new_vertex : Prop :=
  ∀ (m : Mesh) (o : Vertex),
    ((mesh_add_vertex_from m o).2 ∉ vertices m) ∧
    ((mesh_add_vertex_from m o).2 ∈ vertices (mesh_add_vertex_from m o).1).

(** Modelled from the spec: inserting a face (section 6) is about faces and
    half-edges; the vertices the mesh had are vertices of the mesh after it,
    whether the face was accepted or not. *)
Definition face_insertion_keeps_vertices : Prop :=
  ∀ (m : Mesh) (vs : list Vertex) (w : Vertex),
    w ∈ vertices m → w ∈ vertices (mesh_add_face m vs).1.

(** The indices name vertices of the mesh: what section 6 asks of the
    caller of [add_face]. *)
Definition indices_name_vertices (m : Mesh) (vs : list N) : Prop :=
  Forall (λ u, vertex_of_index u ∈ vertices m) vs.

(** Every vertex the guard holds is a vertex of the mesh: the keys and the
    duplicates of the copy relation, and the entries of the two buffers at
    the positions they share. *)
Definition handles_in_mesh (g : ManifoldGuard Mesh) : Prop :=
  (∀ k l v, copies_ g !! k = Some l → v ∈ l →
     k ∈ vertices (mesh_ g) ∧ v ∈ vertices (mesh_ g)) ∧
  (∀ i v o, face_vertices_ g !! i = Some v → input_face_vertices_ g !! i = Some o →
     o ∈ vertices (mesh_ g) ∧ v ∈ vertices (mesh_ g)).

(** The vertices of [m] are vertices of [m']. *)
Definition mesh_extends (m m' : Mesh) : Prop :=
  ∀ w, w ∈ vertices m → w ∈ vertices m'.

(** [v] is [o] or comes from [o] through the copy relation [c]: a duplicate
    of [o], or a duplicate of such a vertex. *)
Inductive copy_of (c : gmap Vertex (list Vertex)) (o : Vertex) : Vertex → Prop :=
  | copy_of_self : copy_of c o o
  | copy_of_step k l v : copy_of c o k → c !! k = Some l → v ∈ l → copy_of c o v.

(** The entry of the working list at each position is the input vertex of
    that position or comes from it through the copy relation. *)
Definition corners_are_copies (g : ManifoldGuard Mesh) : Prop :=
  ∀ i v o, face_vertices_ g !! i = Some v → input_face_vertices_ g !! i = Some o →
    copy_of (copies_ g) o v.

(** Every duplicate is registered once: no list of the copy relation
    repeats a vertex or holds its own key, and no vertex is in the lists of
    two keys. *)
Definition registered_once (g : ManifoldGuard Mesh) : Prop :=
  ∀ k l, copies_ g !! k = Some l →
    NoDup l ∧ (k ∉ l) ∧
    (∀ k' l', copies_ g !! k' = Some l' → k' ≠ k → ∀ v, v ∈ l → v ∉ l').

End guard_more.

(** ** An executable mesh *)

Module PolygonMesh.

(** Coordinates are opaque to the guard; the instance uses integer triples. *)
Definition vec3 : Type := (Z * Z * Z)%type.

(** Modelled from the spec: the half-edge mesh [SurfaceMesh]
    (easy3d/core/surface_mesh.h and .cpp are not among the sources).
    Section 3 and section 6 of the specification give its contract: vertices
    carry a position, a half-edge is looked up by an ordered vertex pair and
    is either a boundary half-edge (its face slot is empty) or bound to a
    face, a vertex is isolated when it has no incident edge, and face
    insertion is refused when the mesh's own checks fail. The mesh is kept
    as the vertex table with deletion marks, the half-edges in creation
    order (an edge contributes both directions) and the faces.

    The vertex table is "the mesh's vertex storage" (section 3), a growable
    array: it has room for [capacity] entries, and an insertion that finds
    it full moves it to a table with twice the room and releases the old
    one, the way a [std::vector] grows. [released] is what a read of a
    released table yields. The language leaves that open, so it is a field:
    a scenario fixes it, and what is proved for every mesh holds whatever
    it is. *)
Record t := mk {
  vertex_data : list (vec3 * bool);
  halfedges : list (Vertex * Vertex);
  faces : list (list Vertex);
  capacity : nat;
  released : vec3
}.

(** The mesh before any insertion, on storage that reads as [junk] once
    released. *)
Definition empty_on (junk : vec3) : t := mk [] [] [] 0 junk.

(** The scenarios run on storage that reads as a position none of their
    vertices is given. *)
Definition empty : t := empty_on (-1, -1, -1).

(** The table has no room left: the next insertion moves it. *)
Definition table_is_full (m : t) : bool := (capacity m <=? length (vertex_data m))%nat.

(** The room after the next insertion. *)
Definition grown (m : t) : nat :=
  if table_is_full m then Nat.max 1 (2 * capacity m) else capacity m.

Definition lookup_vertex (m : t) (v : Vertex) : option (vec3 * bool) :=
  if v_idx v <? 0 then None else vertex_data m !! Z.to_nat (v_idx v).

(** Modelled from the spec: "insert a vertex at a position, new vertex
    handle (always succeeds)". *)
Definition insert_vertex (m : t) (p : vec3) : t * Vertex :=
  (mk (vertex_data m ++ [(p, false)]) (halfedges m) (faces m) (grown m) (released m),
   mkVertex (Z.of_nat (length (vertex_data m)))).

(** Modelled from the spec: the per-vertex position table. *)
Definition position (m : t) (v : Vertex) : vec3 :=
  match lookup_vertex m v with
  | Some d => d.1
  | None => (0, 0, 0)
  end.

(** Modelled from the spec: the same insertion, called with the table entry
    of [v] as its argument. The table gets its new entry first and the
    argument is read afterwards: with room left the entry of [v] is where it
    was, and the new vertex gets the position of [v]; from a full table the
    entries have moved, the reference still points into the released one,
    and the new vertex gets what is read there. *)
Definition insert_vertex_from (m : t) (v : Vertex) : t * Vertex :=
  insert_vertex m (if table_is_full m then released m else position m v).

(** Modelled from the spec: "look up the half-edge between two vertex
    handles (ordered), optional handle". *)
Definition halfedge_between (m : t) (s t : Vertex) : Halfedge :=
  match list_find (λ e, e = (s, t)) (halfedges m) with
  | Some (i, _) => mkHalfedge (Z.of_nat i)
  | None => invalid_halfedge
  end.

Definition halfedge_ends (m : t) (h : Halfedge) : option (Vertex * Vertex) :=
  if h_idx h <? 0 then None else halfedges m !! Z.to_nat (h_idx h).

(** The face slot of the half-edge [e] is filled. *)
Definition has_face (m : t) (e : Vertex * Vertex) : bool :=
  bool_decide (Exists (λ f, e ∈ cyclic_edges f) (faces m)).

(** Modelled from the spec: "is a half-edge a boundary half-edge (face slot
    empty)?" *)
Definition halfedge_on_boundary (m : t) (h : Halfedge) : bool :=
  match halfedge_ends m h with
  | Some e => negb (has_face m e)
  | None => true
  end.

Definition outgoing (m : t) (v : Vertex) : list (Vertex * Vertex) :=
  filter (λ e, e.1 = v) (halfedges m).

Definition incident (m : t) (v : Vertex) : list (Vertex * Vertex) :=
  filter (λ e, e.1 = v ∨ e.2 = v) (halfedges m).

Definition boundary_outgoing (m : t) (v : Vertex) : list (Vertex * Vertex) :=
  filter (λ e, has_face m e = false) (outgoing m v).

(** Modelled from the spec: "is a vertex isolated (no incident edges)?" *)
Definition vertex_is_isolated (m : t) (v : Vertex) : bool :=
  bool_decide (incident m v = []).

(** Modelled from the spec: "is a vertex currently a boundary vertex?", one
    that is not "a closed/interior disk that cannot accept more incident
    faces". A vertex without outgoing half-edge, or with one whose face slot
    is empty, can still take a face. *)
Definition vertex_on_boundary (m : t) (v : Vertex) : bool :=
  bool_decide (outgoing m v = []) || bool_decide (boundary_outgoing m v ≠ []).

(** Modelled from the spec: "is a vertex currently manifold?" More than one
    gap around the vertex (a "vertex shared by disjoint surface sheets")
    makes it non-manifold. *)
Definition vertex_is_manifold (m : t) (v : Vertex) : bool :=
  bool_decide (length (boundary_outgoing m v) < 2)%nat.

(** Modelled from the spec: "insert a face given an ordered vertex-handle
    sequence, face handle, invalid if rejected by the mesh's own invariant
    checks (e.g. exact duplicate face)". Insertion is refused for fewer than
    three vertices, for a vertex that is not on the boundary, and for an edge
    whose half-edge already has a face (an exact duplicate of a face among
    them). *)
Definition insert_face (m : t) (vs : list Vertex) : t * Face :=
  let es := cyclic_edges vs in
  if bool_decide (3 ≤ length vs)%nat
     && forallb (vertex_on_boundary m) vs
     && forallb (λ e, negb (bool_decide (e ∈ halfedges m) && has_face m e)) es
  then
    let fresh := filter (λ e, e ∉ halfedges m) es in
    (mk (vertex_data m)
        (halfedges m ++ flat_map (λ e, [e; (e.2, e.1)]) fresh)
        (faces m ++ [vs])
        (capacity m) (released m),
     mkFace (Z.of_nat (length (faces m))))
  else (m, invalid_face).

Definition mark_deleted (m : t) (v : Vertex) : list (vec3 * bool) :=
  if v_idx v <? 0 then vertex_data m
  else alter (λ d, (d.1, true)) (Z.to_nat (v_idx v)) (vertex_data m).

(** Modelled from the spec: "delete a vertex". The vertex is marked, and
    the faces and half-edges it is part of go with it. *)
Definition remove_vertex (m : t) (v : Vertex) : t :=
  mk (mark_deleted m v)
     (filter (λ e, ¬ (e.1 = v ∨ e.2 = v)) (halfedges m))
     (filter (λ f, v ∉ f) (faces m))
     (capacity m) (released m).

Definition deleted_before (m : t) (i : nat) : nat :=
  length (filter (λ d, d.2 = true) (take i (vertex_data m))).

Definition renumber (m : t) (v : Vertex) : Vertex :=
  if v_idx v <? 0 then v
  else mkVertex (v_idx v - Z.of_nat (deleted_before m (Z.to_nat (v_idx v)))).

(** Modelled from the spec: "compact/garbage-collect mesh storage": the
    marked vertices are dropped and the handles after them move down; the
    table keeps no room beyond its entries. *)
Definition compact (m : t) : t :=
  mk (filter (λ d, d.2 = false) (vertex_data m))
     (map (prod_map (renumber m) (renumber m)) (halfedges m))
     (map (map (renumber m)) (faces m))
     (length (filter (λ d, d.2 = false) (vertex_data m))) (released m).

(** Modelled from the spec: the vertices of the mesh, those marked as
    deleted left out. *)
Definition live_vertices (m : t) : list Vertex :=
  (λ i, mkVertex (Z.of_nat i)) <$>
    filter (λ i, snd <$> vertex_data m !! i = Some false) (seq 0 (length (vertex_data m))).

Global Instance mesh_ops : SurfaceMesh vec3 t := {|
  mesh_add_vertex := insert_vertex;
  mesh_add_vertex_from := insert_vertex_from;
  mesh_add_face := insert_face;
  find_halfedge := halfedge_between;
  is_boundary_h := halfedge_on_boundary;
  is_boundary_v := vertex_on_boundary;
  is_manifold := vertex_is_manifold;
  is_isolated := vertex_is_isolated;
  delete_vertex := remove_vertex;
  garbage_collection := compact;
  vertices := live_vertices;
  points := position
|}.

(** A guard on the empty mesh, counters and buffers as [begin] leaves them. *)
Definition fresh_guard : ManifoldGuard t := begin (mkGuard empty 7 7 7 7 7 [] [] ∅)%N.

(** [insert_vertex] for each position in turn. *)
Definition add_vertices (g : ManifoldGuard t) (ps : list vec3) : ManifoldGuard t :=
  foldl (λ g p, (add_vertex g p).1) g ps.

(** [insert_face] for each index list in turn; the handles returned are collected. *)
Fixpoint add_faces (g : ManifoldGuard t) (fs : list (list N)) : option (ManifoldGuard t * list Face) :=
  match fs with
  | [] => Some (g, [])
  | f :: fs' =>
      '(g1, h) ← add_face g f;
      '(g2, hs) ← add_faces g1 fs';
      Some (g2, h :: hs)
  end.

End PolygonMesh.

(** ** Scenarios on the executable mesh *)

Module Scenario.
Import PolygonMesh.

Definition v0 : Vertex := Eval vm_compute in vertex_of_index 0.
Definition v1 : Vertex := Eval vm_compute in vertex_of_index 1.
Definition v2 : Vertex := Eval vm_compute in vertex_of_index 2.

(** The state [add_face] leaves, or the state it was given if it has none. *)
Definition after_add_face (g : ManifoldGuard t) (vs : list N) : ManifoldGuard t :=
  match add_face g vs with
  | Some (g', _) => g'
  | None => g
  end.

(** Three vertices, no face yet. *)
Definition three_vertices : ManifoldGuard t :=
  Eval vm_compute in add_vertices fresh_guard [(0, 0, 0); (1, 0, 0); (0, 1, 0)].

(** The indices [0,1,2] arriving for the first time: the buffers are filled,
    no edge has been looked at yet. *)
Definition first_arrival : ManifoldGuard t :=
  Eval vm_compute in with_face three_vertices [0; 1; 2]%N.

(** The triangle [0,1,2] inserted once. *)
Definition one_triangle : ManifoldGuard t :=
  Eval vm_compute in after_add_face three_vertices [0; 1; 2]%N.

(** The same indices arriving again: the buffers are filled, no edge has
    been looked at yet. *)
Definition second_arrival : ManifoldGuard t :=
  Eval vm_compute in with_face one_triangle [0; 1; 2]%N.

(** The triangle [0,1,2] inserted twice. *)
Definition two_triangles : ManifoldGuard t :=
  Eval vm_compute in after_add_face one_triangle [0; 1; 2]%N.

(** Four vertices, no face yet. *)
Definition four_vertices : ManifoldGuard t :=
  Eval vm_compute in add_vertices fresh_guard [(0, 0, 0); (1, 0, 0); (0, 1, 0); (5, 5, 5)].

(** Four vertices and the triangle [0,1,2]: vertex 3 has no edge. *)
Definition triangle_and_stray : ManifoldGuard t :=
  Eval vm_compute in after_add_face four_vertices [0; 1; 2]%N.

(** [two_triangles] with one more duplicate of vertex 0 in the mesh and in
    the copy relation: vertex 5, not used by any face. *)
Definition spare_duplicate : ManifoldGuard t :=
  Eval vm_compute in (copy_vertex two_triangles v0).1.

(** [add_face] for each index list in turn. *)
Definition after_add_faces (g : ManifoldGuard t) (fs : list (list N)) : ManifoldGuard t :=
  foldl after_add_face g fs.

(** Six vertices, no face yet. *)
Definition six_vertices : ManifoldGuard t :=
  Eval vm_compute in
    add_vertices fresh_guard
      [(0, 0, 0); (1, 0, 0); (0, 1, 0); (0, 0, 1); (2, 2, 2); (3, 3, 3)].

(** The tetrahedron on the vertices 0 to 3: every edge has its two faces,
    and none of the four vertices is a boundary vertex. Vertices 4 and 5
    have no edge. *)
Definition tetrahedron : ManifoldGuard t :=
  Eval vm_compute in
    after_add_faces six_vertices [[0; 1; 2]; [0; 3; 1]; [0; 2; 3]; [1; 3; 2]]%N.

(** The indices [0,1,4] arriving on the tetrahedron: the edge from 0 to 1
    is taken, neither vertex has a duplicate, neither is a boundary
    vertex. *)
Definition closed_edge_arrival : ManifoldGuard t :=
  Eval vm_compute in with_face tetrahedron [0; 1; 4]%N.

(** The tetrahedron and the face [0,1,4], which went in as [6,7,4]: vertex
    6 is a duplicate of 0 and vertex 7 one of 1. *)
Definition tetrahedron_and_flap : ManifoldGuard t :=
  Eval vm_compute in after_add_face tetrahedron [0; 1; 4]%N.

(** The indices [0,4,5] arriving next: the duplicate 6 of the source makes
    the first edge legal. *)
Definition source_arrival : ManifoldGuard t :=
  Eval vm_compute in with_face tetrahedron_and_flap [0; 4; 5]%N.

(** The indices [5,0,4] arriving instead: no duplicate of the source, and
    the duplicate 6 of the target makes the first edge legal. *)
Definition target_arrival : ManifoldGuard t :=
  Eval vm_compute in with_face tetrahedron_and_flap [5; 0; 4]%N.

(** The indices [1,0,5] arriving instead: neither 7 with 0 nor 1 with 6 is
    legal, and 7 with 6 is. *)
Definition reverse_arrival : ManifoldGuard t :=
  Eval vm_compute in with_face tetrahedron_and_flap [1; 0; 5]%N.

(** Scenario C on storage that reads as [junk] once released: three
    vertices, the triangle [0,1,2], and the same indices again. *)
Definition three_vertices_on (junk : vec3) : ManifoldGuard t :=
  add_vertices (begin (mkGuard (empty_on junk) 0 0 0 0 0 [] [] ∅)%N)
    [(0, 0, 0); (1, 0, 0); (0, 1, 0)].

Definition one_triangle_on (junk : vec3) : ManifoldGuard t :=
  after_add_face (three_vertices_on junk) [0; 1; 2]%N.

Definition two_triangles_on (junk : vec3) : ManifoldGuard t :=
  after_add_face (one_triangle_on junk) [0; 1; 2]%N.
End Scenario.

Module MoreScenarios.
Import PolygonMesh Scenario.

(** [second_arrival] after the resolution of its first edge, from position 0
    to position 1. *)
Definition first_edge_resolved : ManifoldGuard t :=
  Eval vm_compute in default second_arrival (find_or_duplicate_edge second_arrival 0 1).

(** [one_triangle] with buffers left over from some other face. *)
Definition stale_buffers : ManifoldGuard t :=
  Eval vm_compute in
    set_input_face_vertices [mkVertex 7] (set_face_vertices [mkVertex 8; mkVertex 9] one_triangle).

End MoreScenarios.

(** * Properties *)

Section guard_facts.
Context {vec3 Mesh : Type} `{!SurfaceMesh vec3 Mesh}.
Implicit Types (g : ManifoldGuard Mesh) (m : Mesh) (s t : nat) (v : Vertex).

Lemma add_vertex_unfold g p :
  add_vertex g p = (set_mesh (mesh_add_vertex (mesh_ g) p).1 g, (mesh_add_vertex (mesh_ g) p).2).
Proof. unfold add_vertex. by destruct (mesh_add_vertex (mesh_ g) p). Qed.

(** C10: [add_vertex] forwards the position to the mesh's vertex insertion
    and returns its handle; the five counters, the copy relation and both
    working buffers are left as they were. *)
Theorem add_vertex_frame g p :
  (add_vertex g p).2 = (mesh_add_vertex (mesh_ g) p).2 ∧
  mesh_ (add_vertex g p).1 = (mesh_add_vertex (mesh_ g) p).1 ∧
  counters (add_vertex g p).1 = counters g ∧
  same_buffers g (add_vertex g p).1.
Proof. rewrite add_vertex_unfold. by destruct g. Qed.

(** [halfedge_is_legel] as a formula. *)
Lemma halfedge_is_legel_true m v1 v2 :
  halfedge_is_legel m v1 v2 = true ↔
  (halfedge_is_valid (find_halfedge m v1 v2) = false ∨
   (halfedge_is_valid (find_halfedge m v1 v2) = true ∧
    is_boundary_h m (find_halfedge m v1 v2) = true)) ∧
  is_boundary_v m v1 = true ∧ is_boundary_v m v2 = true.
Proof.
  unfold halfedge_is_legel.
  destruct (halfedge_is_valid _), (is_boundary_h m _),
    (is_boundary_v m v1), (is_boundary_v m v2); simpl; intuition congruence.
Qed.

Lemma find_or_duplicate_edge_legal g s t v1 v2 :
  face_vertices_ g !! s = Some v1 → face_vertices_ g !! t = Some v2 →
  halfedge_is_legel (mesh_ g) v1 v2 = true →
  find_or_duplicate_edge g s t = Some g.
Proof.
  intros Hs Ht Hl. unfold find_or_duplicate_edge.
  rewrite Hs, Ht. simpl. by rewrite Hl.
Qed.

(** C2: for every pair of vertex handles the legality predicate holds
    exactly when the half-edge from the first to the second does not exist
    or exists with an empty face slot, and both vertices are boundary
    vertices; when it holds for an edge of the face being inserted, edge
    resolution returns the state it was given: no counter, no entry of the
    working list and no vertex is touched. *)
Theorem legal_edge_untouched m (a b : Vertex) :
  (halfedge_is_legel m a b = true ↔
   (halfedge_is_valid (find_halfedge m a b) = false ∨
    (halfedge_is_valid (find_halfedge m a b) = true ∧
     is_boundary_h m (find_halfedge m a b) = true)) ∧
   is_boundary_v m a = true ∧ is_boundary_v m b = true) ∧
  (∀ g s t,
     mesh_ g = m →
     face_vertices_ g !! s = Some a → face_vertices_ g !! t = Some b →
     halfedge_is_legel m a b = true →
     find_or_duplicate_edge g s t = Some g).
Proof.
  split; [apply halfedge_is_legel_true |].
  intros g s t <- Hs Ht Hlegal. by eapply find_or_duplicate_edge_legal.
Qed.

(** The duplicate scan finds a repeated index exactly when there is one. *)
Lemma equals_a_later_entry_true (x : N) (rest : list N) :
  equals_a_later_entry x rest = true ↔ x ∈ rest.
Proof.
  induction rest as [|y rest IH]; simpl.
  - split; [done | by intros ?%elem_of_nil].
  - rewrite elem_of_cons. destruct (N.eqb_spec x y) as [->|Hne]; [naive_solver |].
    rewrite IH. naive_solver.
Qed.

Lemma has_duplicated_vertices_false (vs : list N) :
  has_duplicated_vertices vs = false ↔ NoDup vs.
Proof.
  induction vs as [|x vs IH]; simpl.
  - split; [constructor | done].
  - rewrite NoDup_cons, <- IH, <- equals_a_later_entry_true.
    destruct (equals_a_later_entry x vs); naive_solver.
Qed.

Lemma has_duplicated_vertices_true (vs : list N) :
  has_duplicated_vertices vs = true ↔ ¬ NoDup vs.
Proof.
  rewrite <- has_duplicated_vertices_false.
  destruct (has_duplicated_vertices vs); naive_solver.
Qed.

Lemma add_face_too_few g (vs : list N) :
  (length vs < 3)%nat →
  add_face g vs = Some (incr_faces_less_three_vertices g, invalid_face).
Proof. intros Hlt. unfold add_face. apply Nat.ltb_lt in Hlt. by rewrite Hlt. Qed.

Lemma add_face_repeated g (vs : list N) :
  (3 ≤ length vs)%nat → ¬ NoDup vs →
  add_face g vs = Some (incr_faces_duplicated_vertices g, invalid_face).
Proof.
  intros Hge Hdup. unfold add_face.
  assert ((length vs <? 3)%nat = false) as -> by (apply Nat.ltb_ge; lia).
  apply has_duplicated_vertices_true in Hdup. by rewrite Hdup.
Qed.

(** C5: a face with fewer than three indices is refused: the handle is
    invalid, the too-few-vertices counter goes up by one, and the mesh, the
    buffers, the copy relation and the other four counters stay; a face with
    at least three indices one of which is repeated is refused the same way
    with the duplicated-vertices counter. *)
Theorem add_face_rejects g (vs : list N) :
  ((length vs < 3)%nat ∨ ((3 ≤ length vs)%nat ∧ ¬ NoDup vs)) →
  ∃ g', add_face g vs = Some (g', invalid_face) ∧
    face_is_valid invalid_face = false ∧
    mesh_ g' = mesh_ g ∧ same_buffers g g' ∧
    num_non_manifold_edges_ g' = num_non_manifold_edges_ g ∧
    num_non_manifold_vertices_ g' = num_non_manifold_vertices_ g ∧
    num_isolated_vertices_ g' = num_isolated_vertices_ g ∧
    ((length vs < 3)%nat →
      num_faces_less_three_vertices_ g' = (num_faces_less_three_vertices_ g + 1)%N ∧
      num_faces_duplicated_vertices_ g' = num_faces_duplicated_vertices_ g) ∧
    ((3 ≤ length vs)%nat →
      num_faces_duplicated_vertices_ g' = (num_faces_duplicated_vertices_ g + 1)%N ∧
      num_faces_less_three_vertices_ g' = num_faces_less_three_vertices_ g).
Proof.
  intros [Hlt | [Hge Hdup]].
  - rewrite add_face_too_few by done.
    eexists; split; [done |]. destruct g; simpl. repeat split; try done; lia.
  - rewrite add_face_repeated by done.
    eexists; split; [done |]. destruct g; simpl. repeat split; try done; lia.
Qed.

(** *** Edge resolution: totality and frame *)

Lemma copies_grow_refl (c : gmap Vertex (list Vertex)) : copies_grow c c.
Proof. intros k l Hk. exists []. by rewrite app_nil_r. Qed.

Lemma copies_grow_trans (c1 c2 c3 : gmap Vertex (list Vertex)) :
  copies_grow c1 c2 → copies_grow c2 c3 → copies_grow c1 c3.
Proof.
  intros H12 H23 k l Hk.
  destruct (H12 k l Hk) as [l1 H1]. destruct (H23 k _ H1) as [l2 H2].
  exists (l1 ++ l2). by rewrite app_assoc.
Qed.

Lemma copies_grow_insert (c : gmap Vertex (list Vertex)) v new_v :
  copies_grow c (<[v := default [] (c !! v) ++ [new_v]]> c).
Proof.
  intros k l Hk. destruct (decide (k = v)) as [->|Hne].
  - exists [new_v]. by rewrite lookup_insert_eq, Hk.
  - exists []. by rewrite lookup_insert_ne, app_nil_r.
Qed.

Lemma edge_step_refl g : edge_step g g.
Proof. repeat split. apply copies_grow_refl. Qed.

Lemma edge_step_trans g1 g2 g3 : edge_step g1 g2 → edge_step g2 g3 → edge_step g1 g3.
Proof.
  intros (?&?&?&?) (?&?&?&?). repeat split; try congruence.
  by eapply copies_grow_trans.
Qed.

Lemma in_range_step g g' s t : edge_step g g' → in_range g s t → in_range g' s t.
Proof. intros (Hi&Hl&_) (?&?&?). unfold in_range. rewrite Hi, Hl. done. Qed.

Lemma edge_step_set_face_vertices g i v :
  edge_step g (set_face_vertices (<[i := v]> (face_vertices_ g)) g).
Proof. destruct g; repeat split; simpl; [apply length_insert | apply copies_grow_refl]. Qed.

Lemma copy_vertex_unfold g v :
  copy_vertex g v =
    (set_copies (<[v := default [] (copies_ g !! v) ++ [(mesh_add_vertex_from (mesh_ g) v).2]]>
                   (copies_ g))
       (set_mesh (mesh_add_vertex_from (mesh_ g) v).1 g),
     (mesh_add_vertex_from (mesh_ g) v).2).
Proof. unfold copy_vertex. by destruct (mesh_add_vertex_from _ _). Qed.

(** [face_vertices_[i] = copy_vertex(orig)] makes the state that the
    specification describes field by field. *)
Lemma duplicate_endpoint_duplicated g i orig :
  duplicate_endpoint g i orig = duplicated g i orig.
Proof. unfold duplicate_endpoint, duplicated. rewrite copy_vertex_unfold. by destruct g. Qed.


Lemma duplicate_endpoint_fields g i orig :
  face_vertices_ (duplicate_endpoint g i orig)
    = <[i := (mesh_add_vertex_from (mesh_ g) orig).2]> (face_vertices_ g) ∧
  input_face_vertices_ (duplicate_endpoint g i orig) = input_face_vertices_ g ∧
  mesh_ (duplicate_endpoint g i orig) = (mesh_add_vertex_from (mesh_ g) orig).1 ∧
  copies_ (duplicate_endpoint g i orig)
    = <[orig := default [] (copies_ g !! orig)
                  ++ [(mesh_add_vertex_from (mesh_ g) orig).2]]> (copies_ g).
Proof. by rewrite duplicate_endpoint_duplicated. Qed.

Lemma edge_step_duplicate_endpoint g i orig : edge_step g (duplicate_endpoint g i orig).
Proof.
  unfold duplicate_endpoint. rewrite copy_vertex_unfold.
  destruct g; repeat split; simpl; [apply length_insert | apply copies_grow_insert].
Qed.

Lemma and_then_ok g r k :
  step_ok g r → (∀ g1, edge_step g g1 → step_ok g1 (k g1)) → step_ok g (and_then r k).
Proof.
  intros (f & -> & Hf) Hk. destruct f as [g1|g1]; simpl in *.
  - by exists (Done g1).
  - destruct (Hk g1 Hf) as (f' & Hf' & Hstep). exists f'. split; [done |].
    by eapply edge_step_trans.
Qed.

Lemma try_copies_of_s_ok g s t l : in_range g s t → step_ok g (try_copies_of_s g s t l).
Proof.
  intros (Hs & Ht & Hlen). induction l as [|v l IH]; simpl.
  - exists (Next g). split; [done | apply edge_step_refl].
  - destruct (lookup_lt_is_Some_2 _ _ Ht) as [vt ->]. simpl.
    destruct (halfedge_is_legel _ _ _); [| done].
    eexists; split; [done |]. apply edge_step_set_face_vertices.
Qed.

Lemma try_copies_of_t_ok g s t l : in_range g s t → step_ok g (try_copies_of_t g s t l).
Proof.
  intros (Hs & Ht & Hlen). induction l as [|v l IH]; simpl.
  - exists (Next g). split; [done | apply edge_step_refl].
  - destruct (lookup_lt_is_Some_2 _ _ Hs) as [vs ->]. simpl.
    destruct (halfedge_is_legel _ _ _); [| done].
    eexists; split; [done |]. apply edge_step_set_face_vertices.
Qed.

Lemma try_copies_inner_ok g s t vs lt : step_ok g (try_copies_inner g s t vs lt).
Proof.
  induction lt as [|vt lt IH]; simpl.
  - exists (Next g). split; [done | apply edge_step_refl].
  - destruct (halfedge_is_legel _ _ _); [| done].
    eexists; split; [done |].
    destruct g; repeat split; simpl; [by rewrite !length_insert | apply copies_grow_refl].
Qed.

Lemma try_copies_of_both_ok g s t ls lt : step_ok g (try_copies_of_both g s t ls lt).
Proof.
  revert g. induction ls as [|vs ls IH]; intros g; simpl.
  - exists (Next g). split; [done | apply edge_step_refl].
  - apply and_then_ok; [apply try_copies_inner_ok | intros g1 _; apply IH].
Qed.

Lemma step_copies_of_s_ok g s t : in_range g s t → step_ok g (step_copies_of_s g s t).
Proof.
  intros Hr. unfold step_copies_of_s.
  destruct Hr as (Hs & Ht & Hlen). destruct (lookup_lt_is_Some_2 _ _ Hs) as [vs ->]. simpl.
  destruct (copies_ g !! vs); [by apply try_copies_of_s_ok |].
  exists (Next g). split; [done | apply edge_step_refl].
Qed.

Lemma step_copies_of_t_ok g s t : in_range g s t → step_ok g (step_copies_of_t g s t).
Proof.
  intros Hr. unfold step_copies_of_t.
  destruct Hr as (Hs & Ht & Hlen). destruct (lookup_lt_is_Some_2 _ _ Ht) as [vt ->]. simpl.
  destruct (copies_ g !! vt); [by apply try_copies_of_t_ok |].
  exists (Next g). split; [done | apply edge_step_refl].
Qed.

Lemma step_copies_of_both_ok g s t : in_range g s t → step_ok g (step_copies_of_both g s t).
Proof.
  intros (Hs & Ht & Hlen). unfold step_copies_of_both.
  destruct (lookup_lt_is_Some_2 _ _ Hs) as [vs ->]. simpl.
  destruct (copies_ g !! vs); [| exists (Next g); split; [done | apply edge_step_refl]].
  destruct (lookup_lt_is_Some_2 _ _ Ht) as [vt ->]. simpl.
  destruct (copies_ g !! vt); [apply try_copies_of_both_ok |].
  exists (Next g). split; [done | apply edge_step_refl].
Qed.

Lemma step_duplicate_ok g s t i :
  in_range g s t → (i < length (face_vertices_ g))%nat →
  ∀ orig, ∃ v1 v2,
    face_vertices_ (duplicate_endpoint g i orig) !! s = Some v1 ∧
    face_vertices_ (duplicate_endpoint g i orig) !! t = Some v2.
Proof.
  intros Hr Hi orig.
  pose proof (in_range_step _ _ s t (edge_step_duplicate_endpoint g i orig) Hr) as (Hs & Ht & _).
  destruct (lookup_lt_is_Some_2 _ _ Hs) as [v1 ?], (lookup_lt_is_Some_2 _ _ Ht) as [v2 ?].
  by exists v1, v2.
Qed.

Lemma step_duplicate_s_ok g s t : in_range g s t → step_ok g (step_duplicate_s g s t).
Proof.
  intros Hr. pose proof Hr as (Hs & Ht & Hlen). unfold step_duplicate_s.
  destruct (lookup_lt_is_Some_2 _ _ Hs) as [vs ->]. simpl.
  destruct (negb _); [| exists (Next g); split; [done | apply edge_step_refl]].
  assert (s < length (input_face_vertices_ g))%nat as Hs' by lia.
  destruct (lookup_lt_is_Some_2 _ _ Hs') as [orig ->]. simpl.
  destruct (step_duplicate_ok g s t s Hr Hs orig) as (v1 & v2 & -> & ->). simpl.
  destruct (halfedge_is_legel _ _ _); eexists; (split; [done |]);
    apply edge_step_duplicate_endpoint.
Qed.

Lemma step_duplicate_t_ok g s t : in_range g s t → step_ok g (step_duplicate_t g s t).
Proof.
  intros Hr. pose proof Hr as (Hs & Ht & Hlen). unfold step_duplicate_t.
  destruct (lookup_lt_is_Some_2 _ _ Ht) as [vt ->]. simpl.
  destruct (negb _); [| exists (Next g); split; [done | apply edge_step_refl]].
  assert (t < length (input_face_vertices_ g))%nat as Ht' by lia.
  destruct (lookup_lt_is_Some_2 _ _ Ht') as [orig ->]. simpl.
  destruct (step_duplicate_ok g s t t Hr Ht orig) as (v1 & v2 & -> & ->). simpl.
  destruct (halfedge_is_legel _ _ _); eexists; (split; [done |]);
    apply edge_step_duplicate_endpoint.
Qed.

Lemma copy_if_original_ok g i :
  (i < length (face_vertices_ g))%nat →
  length (input_face_vertices_ g) = length (face_vertices_ g) →
  ∃ g', copy_if_original g i = Some g' ∧ edge_step g g'.
Proof.
  intros Hi Hlen. unfold copy_if_original.
  destruct (lookup_lt_is_Some_2 _ _ Hi) as [v ->]. simpl.
  assert (i < length (input_face_vertices_ g))%nat as Hi' by lia.
  destruct (lookup_lt_is_Some_2 _ _ Hi') as [orig ->]. simpl.
  destruct (decide (v = orig)); eexists; (split; [done |]);
    [apply edge_step_duplicate_endpoint | apply edge_step_refl].
Qed.

Lemma last_resort_ok g s t :
  in_range g s t → ∃ g', last_resort g s t = Some g' ∧ edge_step g g'.
Proof.
  intros Hr. pose proof Hr as (Hs & Ht & Hlen). unfold last_resort.
  destruct (copy_if_original_ok g s Hs Hlen) as (g1 & -> & H1). simpl.
  pose proof (in_range_step _ _ s t H1 Hr) as (_ & Ht1 & Hlen1).
  destruct (copy_if_original_ok g1 t Ht1 Hlen1) as (g2 & -> & H2).
  exists g2. split; [done |]. by eapply edge_step_trans.
Qed.

Lemma search_and_duplicate_ok g s t :
  in_range g s t → step_ok g (search_and_duplicate g s t).
Proof.
  intros Hr. unfold search_and_duplicate.
  apply and_then_ok; [by apply step_copies_of_s_ok |]. intros g1 H1.
  pose proof (in_range_step _ _ s t H1 Hr) as Hr1.
  apply and_then_ok; [by apply step_copies_of_t_ok |]. intros g2 H2.
  pose proof (in_range_step _ _ s t H2 Hr1) as Hr2.
  apply and_then_ok; [by apply step_copies_of_both_ok |]. intros g3 H3.
  pose proof (in_range_step _ _ s t H3 Hr2) as Hr3.
  apply and_then_ok; [by apply step_duplicate_s_ok |]. intros g4 H4.
  pose proof (in_range_step _ _ s t H4 Hr3) as Hr4.
  by apply step_duplicate_t_ok.
Qed.

(** An illegal edge is counted, and what follows is an [edge_step]. *)
Lemma find_or_duplicate_edge_illegal g s t v1 v2 :
  in_range g s t →
  face_vertices_ g !! s = Some v1 → face_vertices_ g !! t = Some v2 →
  halfedge_is_legel (mesh_ g) v1 v2 = false →
  ∃ g', find_or_duplicate_edge g s t = Some g' ∧ edge_step (incr_non_manifold_edges g) g'.
Proof.
  intros Hr Hs Ht Hl. unfold find_or_duplicate_edge. rewrite Hs, Ht. simpl. rewrite Hl. simpl.
  assert (in_range (incr_non_manifold_edges g) s t) as Hr0 by (by destruct g).
  assert (step_ok (incr_non_manifold_edges g)
            (and_then (search_and_duplicate (incr_non_manifold_edges g) s t)
               (λ g5, Done <$> last_resort g5 s t))) as (f & -> & Hf).
  { apply and_then_ok; [by apply search_and_duplicate_ok |]. intros g5 H5.
    destruct (last_resort_ok g5 s t (in_range_step _ _ s t H5 Hr0)) as (g6 & -> & H6).
    by exists (Done g6). }
  simpl. eauto.
Qed.

(** Edge resolution returns for positions inside the buffers; either the
    edge was legal and nothing changed, or the counter went up by one and
    the rest is an [edge_step]. *)
Lemma find_or_duplicate_edge_ok g s t :
  in_range g s t →
  ∃ g', find_or_duplicate_edge g s t = Some g' ∧
    (g' = g ∨ edge_step (incr_non_manifold_edges g) g').
Proof.
  intros Hr. pose proof Hr as (Hs & Ht & Hlen).
  destruct (lookup_lt_is_Some_2 _ _ Hs) as [v1 H1].
  destruct (lookup_lt_is_Some_2 _ _ Ht) as [v2 H2].
  destruct (halfedge_is_legel (mesh_ g) v1 v2) eqn:Hl.
  - exists g. split; [by eapply find_or_duplicate_edge_legal | by left].
  - destruct (find_or_duplicate_edge_illegal g s t v1 v2 Hr H1 H2 Hl) as (g' & ? & ?).
    exists g'. auto.
Qed.

(** *** Face insertion: the buffers, totality and frame *)

Lemma length_resize_vertices n (l : list Vertex) : length (resize_vertices n l) = n.
Proof. unfold resize_vertices. rewrite length_app, length_take, length_replicate. lia. Qed.

Lemma fill_entries_prefix (vs : list N) g k :
  (k ≤ length vs)%nat →
  length (face_vertices_ g) = length vs → length (input_face_vertices_ g) = length vs →
  foldl (fill_entry vs) g (seq 0 k) =
    set_input_face_vertices ((vertex_of_index <$> take k vs) ++ drop k (input_face_vertices_ g))
      (set_face_vertices ((vertex_of_index <$> take k vs) ++ drop k (face_vertices_ g)) g).
Proof.
  intros Hk Hf Hi. induction k as [|k IH].
  - by destruct g.
  - rewrite seq_S, foldl_app, IH by lia. simpl. unfold fill_entry.
    destruct (lookup_lt_is_Some_2 vs k ltac:(lia)) as [u Hu]. rewrite Hu.
    destruct g as [m c1 c2 c3 c4 c5 inp fv cp]; simpl in *.
    assert (length (vertex_of_index <$> take k vs) = k) as Hlen
      by (rewrite length_fmap, length_take; lia).
    assert (∀ l : list Vertex, length l = length vs →
              <[k := vertex_of_index u]> ((vertex_of_index <$> take k vs) ++ drop k l) =
              (vertex_of_index <$> take (S k) vs) ++ drop (S k) l) as Hins.
    { intros l Hl. rewrite insert_app_r_alt by lia. rewrite Hlen, Nat.sub_diag.
      destruct (lookup_lt_is_Some_2 l k ltac:(lia)) as [y Hy].
      rewrite (drop_S l y k Hy). simpl.
      rewrite (take_S_r vs k u Hu), fmap_app. simpl. by rewrite <- app_assoc. }
    by rewrite !Hins.
Qed.

Lemma fill_entries (vs : list N) g :
  length (face_vertices_ g) = length vs → length (input_face_vertices_ g) = length vs →
  foldl (fill_entry vs) g (seq 0 (length vs)) = with_face g vs.
Proof.
  intros Hf Hi. rewrite fill_entries_prefix by done.
  rewrite firstn_all, !drop_ge, !app_nil_r by lia. done.
Qed.

Lemma add_face_accepted g (vs : list N) :
  (3 ≤ length vs)%nat → NoDup vs →
  add_face g vs =
    g4 ← resolve_edges (with_face g vs) (length vs) (seq 0 (length vs));
    Some (set_mesh (mesh_add_face (mesh_ g4) (face_vertices_ g4)).1 g4,
          (mesh_add_face (mesh_ g4) (face_vertices_ g4)).2).
Proof.
  intros Hlen Hnd. unfold add_face.
  assert ((length vs <? 3)%nat = false) as -> by (apply Nat.ltb_ge; lia).
  apply has_duplicated_vertices_false in Hnd. rewrite Hnd.
  rewrite fill_entries.
  - assert (with_face (set_face_vertices
               (resize_vertices (length vs)
                  (face_vertices_ (set_input_face_vertices
                     (resize_vertices (length vs) (input_face_vertices_ g)) g)))
               (set_input_face_vertices
                  (resize_vertices (length vs) (input_face_vertices_ g)) g)) vs
            = with_face g vs) as -> by (by destruct g).
    destruct (resolve_edges _ _ _) as [g4|]; simpl; [| done].
    by destruct (mesh_add_face _ _).
  - destruct g; simpl. apply length_resize_vertices.
  - destruct g; simpl. apply length_resize_vertices.
Qed.

Lemma edges_resolved_refl g : edges_resolved 0 g g.
Proof. repeat split; try lia. apply copies_grow_refl. Qed.

Lemma edges_resolved_trans a b g1 g2 g3 :
  edges_resolved a g1 g2 → edges_resolved b g2 g3 → edges_resolved (a + b) g1 g3.
Proof.
  intros (?&?&?&?&?&?&?&?) (?&?&?&?&?&?&?&?).
  repeat split; try congruence; try lia. by eapply copies_grow_trans.
Qed.

Lemma edge_step_counted g g' :
  edge_step (incr_non_manifold_edges g) g' →
  edges_resolved 1 g g' ∧
  num_non_manifold_edges_ g' = (num_non_manifold_edges_ g + 1)%N.
Proof.
  intros (Hi & Hl & Hc & Hg). destruct g, g'; simpl in *.
  unfold counters in Hc; simpl in Hc. injection Hc as -> -> -> -> ->.
  repeat split; simpl; try done; lia.
Qed.

Lemma find_or_duplicate_edge_resolved g s t :
  in_range g s t →
  ∃ g', find_or_duplicate_edge g s t = Some g' ∧ edges_resolved 1 g g'.
Proof.
  intros Hr. destruct (find_or_duplicate_edge_ok g s t Hr) as (g' & Hg' & [-> | Hstep]).
  - exists g. split; [done |]. repeat split; try lia. apply copies_grow_refl.
  - exists g'. split; [done |]. by apply edge_step_counted.
Qed.

Lemma resolve_edges_resolved g nb (ss : list nat) :
  (0 < nb)%nat → length (face_vertices_ g) = nb → length (input_face_vertices_ g) = nb →
  Forall (λ s, s < nb)%nat ss →
  ∃ g', resolve_edges g nb ss = Some g' ∧ edges_resolved (length ss) g g'.
Proof.
  intros Hnb Hf Hi Hss. revert g Hf Hi.
  induction Hss as [|s ss Hs Hss IH]; intros g Hf Hi; simpl.
  - exists g. split; [done | apply edges_resolved_refl].
  - assert (in_range g s ((s + 1) `mod` nb)) as Hr.
    { unfold in_range. rewrite Hf, Hi. split_and!; [lia | | done].
      apply Nat.mod_upper_bound. lia. }
    destruct (find_or_duplicate_edge_resolved g s _ Hr) as (g1 & -> & H1). simpl.
    pose proof H1 as (Hi1 & Hl1 & _).
    destruct (IH g1 ltac:(congruence) ltac:(congruence)) as (g2 & -> & H2).
    exists g2. split; [done |]. by apply (edges_resolved_trans 1 (length ss) g g1 g2).
Qed.

(** [add_face] returns for every index list. *)
Lemma add_face_total g (vs : list N) : is_Some (add_face g vs).
Proof.
  destruct (decide (length vs < 3)%nat) as [Hlt | Hge].
  { rewrite add_face_too_few by done. eauto. }
  assert (3 ≤ length vs)%nat as Hlen by lia.
  destruct (decide (NoDup vs)) as [Hnd | Hdup].
  2: { rewrite add_face_repeated by done. eauto. }
  rewrite add_face_accepted by done.
  destruct (resolve_edges_resolved (with_face g vs) (length vs) (seq 0 (length vs)))
    as (g4 & -> & _).
  - lia.
  - destruct g; simpl. by rewrite length_fmap.
  - destruct g; simpl. by rewrite length_fmap.
  - apply Forall_forall. intros s Hs%elem_of_seq. lia.
  - simpl. eauto.
Qed.

Lemma cyclic_edges_lookup (l : list Vertex) s a b :
  l !! s = Some a → l !! ((s + 1) `mod` length l)%nat = Some b → (a, b) ∈ cyclic_edges l.
Proof.
  intros Ha Hb. destruct l as [|x r]; [done |]. unfold cyclic_edges.
  apply list_elem_of_lookup. exists s. apply lookup_zip_with_Some.
  exists a, b. split_and!; [done | done |].
  pose proof (lookup_lt_Some _ _ _ Ha) as Hs.
  change (length (x :: r)) with (S (length r)) in Hs, Hb.
  destruct (decide (s < length r)%nat) as [Hlt | Hge].
  - rewrite Nat.mod_small in Hb by lia. rewrite lookup_app_l by done.
    by replace (s + 1)%nat with (S s) in Hb by lia.
  - assert (s = length r) as -> by lia.
    replace (length r + 1)%nat with (S (length r)) in Hb by lia.
    rewrite Nat.Div0.mod_same in Hb.
    rewrite lookup_app_r, Nat.sub_diag by lia. done.
Qed.

Lemma resolve_edges_all_legal g (ss : list nat) :
  Forall (λ s, s < length (face_vertices_ g))%nat ss →
  Forall (λ e, halfedge_is_legel (mesh_ g) e.1 e.2 = true) (cyclic_edges (face_vertices_ g)) →
  resolve_edges g (length (face_vertices_ g)) ss = Some g.
Proof.
  intros Hss Hlegal. induction Hss as [|s ss Hs Hss IH]; simpl; [done |].
  destruct (lookup_lt_is_Some_2 _ _ Hs) as [a Ha].
  assert ((s + 1) `mod` length (face_vertices_ g) < length (face_vertices_ g))%nat as Ht
    by (apply Nat.mod_upper_bound; lia).
  destruct (lookup_lt_is_Some_2 _ _ Ht) as [b Hb].
  rewrite (find_or_duplicate_edge_legal g s _ a b Ha Hb); [done |].
  rewrite Forall_forall in Hlegal.
  apply (Hlegal (a, b)). by eapply cyclic_edges_lookup.
Qed.

(** C6: a face that passes both checks and whose directed edges, the
    closing edge included, are all legal in the current mesh is handed to
    the mesh's face insertion as the caller's vertex sequence, on the mesh
    as it was (no vertex has been added); the copy relation and all
    counters, the non-manifold-edge counter among them, are unchanged. *)
Theorem add_face_legal_face g (vs : list N) :
  (3 ≤ length vs)%nat → NoDup vs →
  Forall (λ e, halfedge_is_legel (mesh_ g) e.1 e.2 = true)
    (cyclic_edges (vertex_of_index <$> vs)) →
  ∃ g' f, add_face g vs = Some (g', f) ∧
    (mesh_ g', f) = mesh_add_face (mesh_ g) (vertex_of_index <$> vs) ∧
    face_vertices_ g' = vertex_of_index <$> vs ∧
    copies_ g' = copies_ g ∧
    counters g' = counters g.
Proof.
  intros Hlen Hnd Hlegal. rewrite add_face_accepted by done.
  pose proof (resolve_edges_all_legal (with_face g vs) (seq 0 (length vs))) as Hres.
  assert (face_vertices_ (with_face g vs) = vertex_of_index <$> vs) as Hfv by (by destruct g).
  assert (mesh_ (with_face g vs) = mesh_ g) as Hm by (by destruct g).
  rewrite Hfv, Hm, length_fmap in Hres. rewrite Hres.
  - cbn [mbind option_bind]. rewrite Hfv, Hm. do 2 eexists. split; [done |].
    destruct (mesh_add_face _ _); by destruct g.
  - apply Forall_forall. intros s Hs%elem_of_seq. lia.
  - done.
Qed.

(** What [add_face] may change, whatever the index list. *)
Lemma add_face_frame g (vs : list N) g' f :
  add_face g vs = Some (g', f) →
  num_isolated_vertices_ g' = num_isolated_vertices_ g ∧
  num_non_manifold_vertices_ g' = num_non_manifold_vertices_ g ∧
  copies_grow (copies_ g) (copies_ g').
Proof.
  intros Hadd.
  destruct (decide (length vs < 3)%nat) as [Hlt | Hge].
  { rewrite add_face_too_few in Hadd by done. injection Hadd as <- <-.
    destruct g; simpl. split_and!; [done | done | apply copies_grow_refl]. }
  assert (3 ≤ length vs)%nat as Hlen by lia.
  destruct (decide (NoDup vs)) as [Hnd | Hdup].
  2: { rewrite add_face_repeated in Hadd by done. injection Hadd as <- <-.
       destruct g; simpl. split_and!; [done | done | apply copies_grow_refl]. }
  rewrite add_face_accepted in Hadd by done.
  destruct (resolve_edges_resolved (with_face g vs) (length vs) (seq 0 (length vs)))
    as (g4 & Hg4 & Hres).
  - lia.
  - destruct g; simpl. by rewrite length_fmap.
  - destruct g; simpl. by rewrite length_fmap.
  - apply Forall_forall. intros s Hs%elem_of_seq. lia.
  - rewrite Hg4 in Hadd. simpl in Hadd. injection Hadd as <- <-.
    destruct Hres as (_ & _ & Hiso & _ & _ & Hnmv & _ & Hcp).
    destruct g, g4; simpl in *. by subst.
Qed.

(** In a session the two counters that only [finish] writes are still zero. *)
Lemma in_session_counters g :
  in_session g → num_isolated_vertices_ g = 0%N ∧ num_non_manifold_vertices_ g = 0%N.
Proof.
  induction 1 as [g | g p _ IH | g vs g' f _ IH Hadd].
  - done.
  - rewrite add_vertex_unfold. by destruct g.
  - destruct (add_face_frame _ _ _ _ Hadd) as (-> & -> & _). done.
Qed.

(** C1 (as amended): once the face [0,1,2] has been inserted with its own
    vertices, so that the half-edge from 0 to 1 is bound to a face, a second
    [add_face] with the same indices counts at least one and at most three
    non-manifold edges; the other four counters are unchanged, and the
    handle returned is the mesh's answer for the rewritten vertex list. *)
Theorem second_identical_face g g1 f1 :
  inserted_face_is_interior →
  add_face g [0; 1; 2]%N = Some (g1, f1) →
  face_is_valid f1 = true →
  face_vertices_ g1 = vertex_of_index <$> [0; 1; 2]%N →
  ∃ g2 f2, add_face g1 [0; 1; 2]%N = Some (g2, f2) ∧
    (num_non_manifold_edges_ g1 + 1 ≤ num_non_manifold_edges_ g2
       ≤ num_non_manifold_edges_ g1 + 3)%N ∧
    num_faces_less_three_vertices_ g2 = num_faces_less_three_vertices_ g1 ∧
    num_faces_duplicated_vertices_ g2 = num_faces_duplicated_vertices_ g1 ∧
    num_non_manifold_vertices_ g2 = num_non_manifold_vertices_ g1 ∧
    num_isolated_vertices_ g2 = num_isolated_vertices_ g1 ∧
    ∃ m, (mesh_ g2, f2) = mesh_add_face m (face_vertices_ g2).
Proof.
  intros Hlaw Hadd Hvalid Hfv.
  assert (NoDup [0; 1; 2]%N) as Hnd by (by apply has_duplicated_vertices_false).
  (* the first insertion *)
  rewrite add_face_accepted in Hadd by (simpl; done || lia).
  destruct (resolve_edges _ _ _) as [g4|]; [| done].
  simpl in Hadd. injection Hadd as <- <-.
  assert (face_vertices_ g4 = vertex_of_index <$> [0; 1; 2]%N) as Hfv4
    by (by destruct g4).
  rewrite Hfv4 in Hvalid.
  destruct (Hlaw (mesh_ g4) (vertex_of_index <$> [0; 1; 2]%N)
              (vertex_of_index 0) (vertex_of_index 1) Hvalid) as [Hh Hb].
  { simpl. rewrite elem_of_cons. by left. }
  set (g1 := set_mesh (mesh_add_face (mesh_ g4) (face_vertices_ g4)).1 g4) in *.
  assert (mesh_ g1 = (mesh_add_face (mesh_ g4) (vertex_of_index <$> [0; 1; 2]%N)).1) as Hm1
    by (unfold g1; rewrite Hfv4; by destruct g4).
  assert (halfedge_is_legel (mesh_ g1) (vertex_of_index 0) (vertex_of_index 1) = false) as Hill.
  { unfold halfedge_is_legel. rewrite Hm1, Hh, Hb. done. }
  (* the second insertion *)
  rewrite add_face_accepted by (simpl; done || lia).
  change (seq 0 (length [0; 1; 2]%N)) with ([0] ++ [1; 2])%nat.
  set (w := with_face g1 [0; 1; 2]%N).
  assert (in_range w 0 1) as Hr by (unfold w; destruct g1; simpl; unfold in_range; simpl; lia).
  destruct (find_or_duplicate_edge_illegal w 0 1 (vertex_of_index 0) (vertex_of_index 1))
    as (w1 & Hw1 & Hstep1); [done | by destruct g1 | by destruct g1 | by destruct g1 |].
  apply edge_step_counted in Hstep1 as [Hres1 Hnme1].
  destruct (resolve_edges_resolved w1 3 [1; 2]%nat) as (w2 & Hw2 & Hres2).
  - lia.
  - destruct Hres1 as (_ & -> & _). by destruct g1.
  - destruct Hres1 as (-> & _). by destruct g1.
  - repeat constructor; lia.
  - change (resolve_edges w (length [0; 1; 2]%N) ([0] ++ [1; 2])%nat)
      with (find_or_duplicate_edge w 0 1 ≫= λ g', resolve_edges g' 3 [1; 2]%nat).
    rewrite Hw1. cbn [mbind option_bind]. rewrite Hw2. cbn [mbind option_bind].
    do 2 eexists. split; [done |].
    destruct Hres1 as (_ & _ & Ha1 & Ha2 & Ha3 & Ha4 & _).
    destruct Hres2 as (_ & _ & Hb1 & Hb2 & Hb3 & Hb4 & Hb5 & _).
    assert (num_non_manifold_edges_ w = num_non_manifold_edges_ g1 ∧
            num_isolated_vertices_ w = num_isolated_vertices_ g1 ∧
            num_faces_less_three_vertices_ w = num_faces_less_three_vertices_ g1 ∧
            num_faces_duplicated_vertices_ w = num_faces_duplicated_vertices_ g1 ∧
            num_non_manifold_vertices_ w = num_non_manifold_vertices_ g1)
      as (Hw & Hc1 & Hc2 & Hc3 & Hc5) by (unfold w; by destruct g1).
    simpl in Hb5.
    assert (∀ m, num_non_manifold_edges_ (set_mesh m w2) = num_non_manifold_edges_ w2 ∧
                 num_isolated_vertices_ (set_mesh m w2) = num_isolated_vertices_ w2 ∧
                 num_faces_less_three_vertices_ (set_mesh m w2) = num_faces_less_three_vertices_ w2 ∧
                 num_faces_duplicated_vertices_ (set_mesh m w2) = num_faces_duplicated_vertices_ w2 ∧
                 num_non_manifold_vertices_ (set_mesh m w2) = num_non_manifold_vertices_ w2 ∧
                 face_vertices_ (set_mesh m w2) = face_vertices_ w2 ∧
                 mesh_ (set_mesh m w2) = m) as Hset by (intros; by destruct w2).
    destruct (Hset (mesh_add_face (mesh_ w2) (face_vertices_ w2)).1)
      as (-> & -> & -> & -> & -> & -> & ->).
    split_and!; [lia | lia | congruence | congruence | congruence | congruence |].
    exists (mesh_ w2). symmetry. apply surjective_pairing.
Qed.

(** *** [finish] *)

Lemma filter_ext_elem_of {A} (P Q : A → Prop) `{!∀ x, Decision (P x)} `{!∀ x, Decision (Q x)}
    (l : list A) :
  (∀ x, x ∈ l → (P x ↔ Q x)) → filter P l = filter Q l.
Proof.
  induction l as [|x l IH]; intros Hext; [done |].
  rewrite !filter_cons.
  rewrite IH by (intros y Hy; apply Hext; by right).
  destruct (decide (P x)) as [HP | HP], (decide (Q x)) as [HQ | HQ]; try done;
    exfalso; apply (Hext x (list_elem_of_here _ _)) in HP || apply (Hext x (list_elem_of_here _ _)) in HQ;
    done.
Qed.

(** The first loop deletes the vertices that were isolated when it started,
    one count each. *)
Lemma delete_isolated_loop (l : list Vertex) g :
  deleting_isolated_is_local → NoDup l →
  foldl delete_if_isolated g l =
    mkGuard (foldl delete_vertex (mesh_ g) (filter (λ v, is_isolated (mesh_ g) v = true) l))
      (num_faces_less_three_vertices_ g) (num_faces_duplicated_vertices_ g)
      (num_non_manifold_edges_ g) (num_non_manifold_vertices_ g)
      (num_isolated_vertices_ g + N.of_nat (length (filter (λ v, is_isolated (mesh_ g) v = true) l)))
      (input_face_vertices_ g) (face_vertices_ g) (copies_ g).
Proof.
  intros [_ Hlocal] Hnd. revert g. induction Hnd as [|v l Hv Hnd IH]; intros g.
  - destruct g; simpl. by rewrite N.add_0_r.
  - cbn [foldl]. rewrite filter_cons.
    destruct (is_isolated (mesh_ g) v) eqn:Hiso.
    + rewrite decide_True by done.
      assert (delete_if_isolated g v
              = incr_isolated_vertices (set_mesh (delete_vertex (mesh_ g) v) g)) as ->
        by (unfold delete_if_isolated; by rewrite Hiso).
      rewrite IH.
      assert (filter (λ w, is_isolated (mesh_ (incr_isolated_vertices
                 (set_mesh (delete_vertex (mesh_ g) v) g))) w = true) l
              = filter (λ w, is_isolated (mesh_ g) w = true) l) as ->.
      { apply filter_ext_elem_of. intros w Hw.
        assert (w ≠ v) by (intros ->; done).
        destruct g; simpl. by rewrite Hlocal. }
      destruct g; simpl. f_equal. lia.
    + rewrite decide_False by done.
      assert (delete_if_isolated g v = g) as ->
        by (unfold delete_if_isolated; by rewrite Hiso).
      apply IH.
Qed.

(** The second loop counts the vertices that are not manifold. *)
Lemma count_non_manifold_loop (l : list Vertex) g :
  foldl count_if_non_manifold g l =
    mkGuard (mesh_ g)
      (num_faces_less_three_vertices_ g) (num_faces_duplicated_vertices_ g)
      (num_non_manifold_edges_ g)
      (num_non_manifold_vertices_ g
         + N.of_nat (length (filter (λ v, is_manifold (mesh_ g) v = false) l)))
      (num_isolated_vertices_ g)
      (input_face_vertices_ g) (face_vertices_ g) (copies_ g).
Proof.
  revert g. induction l as [|v l IH]; intros g.
  - destruct g; simpl. by rewrite N.add_0_r.
  - cbn [foldl]. rewrite filter_cons.
    destruct (is_manifold (mesh_ g) v) eqn:Hman.
    + rewrite decide_False by done.
      assert (count_if_non_manifold g v = g) as ->
        by (unfold count_if_non_manifold; by rewrite Hman).
      apply IH.
    + rewrite decide_True by done.
      assert (count_if_non_manifold g v = incr_non_manifold_vertices g) as ->
        by (unfold count_if_non_manifold; by rewrite Hman).
      rewrite IH. destruct g; simpl. f_equal. lia.
Qed.

Lemma report_line_flag (count : N) text (acc : string * bool) :
  (report_line count text acc).2 = acc.2 || (0 <? count)%N.
Proof.
  unfold report_line. destruct (0 <? count)%N; simpl; by rewrite ?orb_true_r, ?orb_false_r.
Qed.

(** [finish] on any state: both loops add to the counter they write. *)
Lemma finish_accumulates g :
  deleting_isolated_is_local →
  let isolated := filter (λ v, is_isolated (mesh_ g) v = true) (vertices (mesh_ g)) in
  let m' := garbage_collection (foldl delete_vertex (mesh_ g) isolated) in
  (finish g).1 =
    mkGuard m' (num_faces_less_three_vertices_ g) (num_faces_duplicated_vertices_ g)
      (num_non_manifold_edges_ g)
      (num_non_manifold_vertices_ g
         + N.of_nat (length (filter (λ v, is_manifold m' v = false) (vertices m'))))
      (num_isolated_vertices_ g + N.of_nat (length isolated))
      (input_face_vertices_ g) (face_vertices_ g) (copies_ g) ∧
  (is_Some (finish g).2 ↔ Exists (λ c, c ≠ 0%N) (counters (finish g).1)).
Proof.
  intros Hlaw isolated m'.
  unfold finish. cbn [fst snd].
  rewrite (delete_isolated_loop _ g Hlaw (proj1 Hlaw (mesh_ g))).
  fold isolated. cbn [mesh_ set_mesh]. fold m'.
  rewrite count_non_manifold_loop. cbn -[filter report_line].
  split; [done |].
  rewrite !report_line_flag. cbn [snd].
  set (a := (num_isolated_vertices_ g + N.of_nat (length isolated))%N).
  set (b := (num_non_manifold_vertices_ g + N.of_nat (length (filter _ (vertices m'))))%N).
  unfold counters. cbn [num_isolated_vertices_ num_faces_less_three_vertices_
    num_faces_duplicated_vertices_ num_non_manifold_edges_ num_non_manifold_vertices_].
  rewrite !Exists_cons, Exists_nil.
  set (msg := (report_line b _ _).1). clearbody msg.
  split.
  - intros [msg' Hmsg].
    destruct (N.ltb_spec 0 a), (N.ltb_spec 0 (num_faces_less_three_vertices_ g)),
      (N.ltb_spec 0 (num_faces_duplicated_vertices_ g)),
      (N.ltb_spec 0 (num_non_manifold_edges_ g)), (N.ltb_spec 0 b);
      simpl in Hmsg; try discriminate; lia.
  - intros Hex.
    destruct (N.ltb_spec 0 a), (N.ltb_spec 0 (num_faces_less_three_vertices_ g)),
      (N.ltb_spec 0 (num_faces_duplicated_vertices_ g)),
      (N.ltb_spec 0 (num_non_manifold_edges_ g)), (N.ltb_spec 0 b);
      simpl; eauto; lia.
Qed.

(** C8: in a session, [finish] deletes the vertices that are isolated when
    it is called, counting each once, compacts the mesh, counts the
    vertices of the compacted mesh that are not manifold, and writes its
    one message exactly when one of the five counters is not zero. *)
Theorem finish_deletes_and_reports g :
  deleting_isolated_is_local → in_session g →
  let isolated := filter (λ v, is_isolated (mesh_ g) v = true) (vertices (mesh_ g)) in
  let m' := garbage_collection (foldl delete_vertex (mesh_ g) isolated) in
  mesh_ (finish g).1 = m' ∧
  num_isolated_vertices_ (finish g).1 = N.of_nat (length isolated) ∧
  num_non_manifold_vertices_ (finish g).1
    = N.of_nat (length (filter (λ v, is_manifold m' v = false) (vertices m'))) ∧
  num_faces_less_three_vertices_ (finish g).1 = num_faces_less_three_vertices_ g ∧
  num_faces_duplicated_vertices_ (finish g).1 = num_faces_duplicated_vertices_ g ∧
  num_non_manifold_edges_ (finish g).1 = num_non_manifold_edges_ g ∧
  same_buffers g (finish g).1 ∧
  (is_Some (finish g).2 ↔ Exists (λ c, c ≠ 0%N) (counters (finish g).1)).
Proof.
  intros Hlaw Hsession isolated m'.
  destruct (in_session_counters g Hsession) as [Hiso0 Hnmv0].
  destruct (finish_accumulates g Hlaw) as [Hfin Hmsg].
  fold isolated m' in Hfin. rewrite Hiso0, Hnmv0, !N.add_0_l in Hfin.
  split_and!; try exact Hmsg; by rewrite Hfin.
Qed.

(** *** Edge resolution against its specification *)

Lemma find_app_first {A} (P : A → bool) (l1 l2 : list A) :
  find P (l1 ++ l2) = match find P l1 with Some x => Some x | None => find P l2 end.
Proof. induction l1 as [|x l1 IH]; simpl; [done |]. by destruct (P x). Qed.

Lemma find_fmap {A B} (f : A → B) (P : B → bool) (l : list A) :
  find P (f <$> l) = f <$> find (λ x, P (f x)) l.
Proof. induction l as [|x l IH]; simpl; [done |]. by destruct (P (f x)). Qed.

Lemma try_copies_of_s_find g s t vt l :
  face_vertices_ g !! t = Some vt →
  try_copies_of_s g s t l =
    Some (match find (λ v, halfedge_is_legel (mesh_ g) v vt) l with
          | Some v => Done (set_face_vertices (<[s := v]> (face_vertices_ g)) g)
          | None => Next g
          end).
Proof.
  intros Ht. induction l as [|v l IH]; simpl; [done |].
  rewrite Ht. simpl. by destruct (halfedge_is_legel _ _ _).
Qed.

Lemma try_copies_of_t_find g s t vs l :
  face_vertices_ g !! s = Some vs →
  try_copies_of_t g s t l =
    Some (match find (λ v, halfedge_is_legel (mesh_ g) vs v) l with
          | Some v => Done (set_face_vertices (<[t := v]> (face_vertices_ g)) g)
          | None => Next g
          end).
Proof.
  intros Hs. induction l as [|v l IH]; simpl; [done |].
  rewrite Hs. simpl. by destruct (halfedge_is_legel _ _ _).
Qed.

Lemma try_copies_inner_find g s t a lt :
  try_copies_inner g s t a lt =
    Some (match find (λ b, halfedge_is_legel (mesh_ g) a b) lt with
          | Some b => Done (set_face_vertices (<[t := b]> (<[s := a]> (face_vertices_ g))) g)
          | None => Next g
          end).
Proof. induction lt as [|b lt IH]; simpl; [done |]. by destruct (halfedge_is_legel _ _ _). Qed.

Lemma try_copies_of_both_find g s t ls lt :
  try_copies_of_both g s t ls lt =
    Some (match find (λ e, halfedge_is_legel (mesh_ g) e.1 e.2) (list_prod ls lt) with
          | Some e =>
              Done (set_face_vertices (<[t := e.2]> (<[s := e.1]> (face_vertices_ g))) g)
          | None => Next g
          end).
Proof.
  induction ls as [|a ls IH]; simpl; [done |].
  rewrite try_copies_inner_find, find_app_first.
  change (map (λ y, (a, y)) lt) with ((λ y, (a, y)) <$> lt). rewrite find_fmap. simpl.
  destruct (find _ lt); simpl; [done | apply IH].
Qed.

(** Lines 165-207 find the first legal pair among the substitutes. *)
Lemma search_is_first_legal g s t vs vt k :
  s ≠ t → face_vertices_ g !! s = Some vs → face_vertices_ g !! t = Some vt →
  and_then (step_copies_of_s g s t) (λ g1,
    and_then (step_copies_of_t g1 s t) (λ g2,
      and_then (step_copies_of_both g2 s t) k))
  = match find (λ e, halfedge_is_legel (mesh_ g) e.1 e.2) (substitutes (copies_ g) vs vt) with
    | Some e =>
        Some (Done (set_face_vertices (<[t := e.2]> (<[s := e.1]> (face_vertices_ g))) g))
    | None => k g
    end.
Proof.
  intros Hne Hs Ht. unfold substitutes.
  assert (∀ v, <[t := vt]> (<[s := v]> (face_vertices_ g)) = <[s := v]> (face_vertices_ g))
    as Hidt by (intros v; apply list_insert_id; by rewrite list_lookup_insert_ne).
  assert (∀ v, <[t := v]> (<[s := vs]> (face_vertices_ g)) = <[t := v]> (face_vertices_ g))
    as Hids by (intros v; by rewrite (list_insert_id _ s vs)).
  rewrite !find_app_first, !find_fmap. simpl.
  unfold step_copies_of_s at 1. rewrite Hs. simpl.
  destruct (copies_ g !! vs) as [ds|] eqn:Hds; simpl.
  - rewrite (try_copies_of_s_find g s t vt ds Ht).
    destruct (find _ ds) as [v|] eqn:Hfs; simpl; [by rewrite Hidt |].
    unfold step_copies_of_t at 1. rewrite Ht. simpl.
    destruct (copies_ g !! vt) as [dt|] eqn:Hdt; simpl.
    + rewrite (try_copies_of_t_find g s t vs dt Hs).
      destruct (find _ dt) as [v|] eqn:Hft; simpl; [by rewrite Hids |].
      unfold step_copies_of_both. rewrite Hs. simpl. rewrite Hds, Ht. simpl. rewrite Hdt.
      rewrite try_copies_of_both_find.
      case_bool_decide as Hboth.
      * by destruct (find _ (list_prod ds dt)).
      * assert (list_prod ds dt = []) as ->; [| done].
        destruct ds as [|d ds]; [done |]. destruct dt as [|d' dt]; [| naive_solver].
        clear. induction ds as [|x ds IH]; [done |]. simpl. apply IH.
    + unfold step_copies_of_both. rewrite Hs. simpl. rewrite Hds, Ht. simpl. rewrite Hdt.
      first [done | case_bool_decide; [naive_solver | done]].
  - unfold step_copies_of_t at 1. rewrite Ht. simpl.
    destruct (copies_ g !! vt) as [dt|] eqn:Hdt; simpl.
    + rewrite (try_copies_of_t_find g s t vs dt Hs).
      destruct (find _ dt) as [v|] eqn:Hft; simpl; [by rewrite Hids |].
      unfold step_copies_of_both. rewrite Hs. simpl. rewrite Hds.
      first [done | case_bool_decide; [naive_solver | done]].
    + unfold step_copies_of_both. rewrite Hs. simpl. rewrite Hds.
      first [done | case_bool_decide; [naive_solver | done]].
Qed.

Lemma step_duplicate_s_retest g s t : step_duplicate_s g s t = duplicate_and_retest g s s t.
Proof.
  unfold step_duplicate_s, duplicate_and_retest.
  destruct (face_vertices_ g !! s) as [v|]; cbn [mbind option_bind]; [| done].
  destruct (is_boundary_v (mesh_ g) v); cbn [negb]; [done |].
  destruct (input_face_vertices_ g !! s) as [orig|]; cbn [mbind option_bind]; [| done].
  rewrite duplicate_endpoint_duplicated.
  generalize (duplicated g s orig). intros g'.
  destruct (face_vertices_ _ !! s); simpl; [| done].
  destruct (face_vertices_ _ !! t); simpl; [| done].
  by destruct (halfedge_is_legel _ _ _).
Qed.

Lemma step_duplicate_t_retest g s t : step_duplicate_t g s t = duplicate_and_retest g t s t.
Proof.
  unfold step_duplicate_t, duplicate_and_retest.
  destruct (face_vertices_ g !! t) as [v|]; cbn [mbind option_bind]; [| done].
  destruct (is_boundary_v (mesh_ g) v); cbn [negb]; [done |].
  destruct (input_face_vertices_ g !! t) as [orig|]; cbn [mbind option_bind]; [| done].
  rewrite duplicate_endpoint_duplicated.
  generalize (duplicated g t orig). intros g'.
  destruct (face_vertices_ _ !! s); simpl; [| done].
  destruct (face_vertices_ _ !! t); simpl; [| done].
  by destruct (halfedge_is_legel _ _ _).
Qed.

Lemma search_and_duplicate_then g s t k :
  and_then (search_and_duplicate g s t) k =
    and_then (step_copies_of_s g s t) (λ g1,
    and_then (step_copies_of_t g1 s t) (λ g2,
    and_then (step_copies_of_both g2 s t) (λ g3,
    and_then (step_duplicate_s g3 s t) (λ g4,
    and_then (step_duplicate_t g4 s t) k)))).
Proof.
  unfold search_and_duplicate.
  destruct (step_copies_of_s g s t) as [[?|g1]|]; simpl; try done.
  destruct (step_copies_of_t g1 s t) as [[?|g2]|]; simpl; try done.
  destruct (step_copies_of_both g2 s t) as [[?|g3]|]; simpl; try done.
  destruct (step_duplicate_s g3 s t) as [[?|g4]|]; simpl; done.
Qed.

Lemma last_resort_cases g s t v1 v2 os ot :
  s ≠ t →
  face_vertices_ g !! s = Some v1 → face_vertices_ g !! t = Some v2 →
  input_face_vertices_ g !! s = Some os → input_face_vertices_ g !! t = Some ot →
  last_resort g s t =
    Some (if decide (v1 = os)
          then if decide (v2 = ot)
               then duplicated (duplicated g s os) t ot
               else duplicated g s os
          else if decide (v2 = ot) then duplicated g t ot else g).
Proof.
  intros Hne Hs Ht His Hit. unfold last_resort, copy_if_original.
  rewrite Hs, His. simpl.
  destruct (decide (v1 = os)) as [-> | Hn1]; simpl.
  - destruct (duplicate_endpoint_fields g s os) as (-> & -> & _).
    rewrite list_lookup_insert_ne, Ht, Hit by done. simpl.
    rewrite !duplicate_endpoint_duplicated. by destruct (decide (v2 = ot)).
  - rewrite Ht, Hit. simpl. rewrite !duplicate_endpoint_duplicated.
    by destruct (decide (v2 = ot)).
Qed.

Lemma last_resort_duplicate_originals g s t :
  s ≠ t → last_resort g s t = duplicate_originals g s t.
Proof.
  intros Hne. unfold last_resort, copy_if_original, duplicate_originals.
  destruct (face_vertices_ g !! s) as [vs|]; simpl; [| done].
  destruct (input_face_vertices_ g !! s) as [os|]; simpl; [| done].
  destruct (decide (vs = os)) as [-> | Hn]; simpl.
  - destruct (duplicate_endpoint_fields g s os) as (-> & -> & _).
    rewrite list_lookup_insert_ne by done.
    destruct (face_vertices_ g !! t) as [vt|]; simpl; [| done].
    destruct (input_face_vertices_ g !! t) as [ot|]; simpl; [| done].
    rewrite !duplicate_endpoint_duplicated. by destruct (decide (vt = ot)).
  - destruct (face_vertices_ g !! t) as [vt|]; simpl; [| done].
    destruct (input_face_vertices_ g !! t) as [ot|]; simpl; [| done].
    rewrite !duplicate_endpoint_duplicated. by destruct (decide (vt = ot)).
Qed.

Lemma find_or_duplicate_edge_refines g s t :
  s ≠ t → find_or_duplicate_edge g s t = find_or_duplicate_edge_spec g s t.
Proof.
  intros Hne. unfold find_or_duplicate_edge, find_or_duplicate_edge_spec.
  destruct (face_vertices_ g !! s) as [vs|] eqn:Hs; simpl; [| done].
  destruct (face_vertices_ g !! t) as [vt|] eqn:Ht; simpl; [| done].
  destruct (halfedge_is_legel (mesh_ g) vs vt); simpl; [done |].
  rewrite search_and_duplicate_then.
  rewrite (search_is_first_legal (incr_non_manifold_edges g) s t vs vt)
    by (done || by destruct g).
  destruct (find _ _) as [e|]; simpl; [done |].
  rewrite step_duplicate_s_retest.
  destruct (duplicate_and_retest (incr_non_manifold_edges g) s s t) as [[g1|g1]|];
    simpl; try done.
  rewrite step_duplicate_t_retest.
  destruct (duplicate_and_retest g1 t s t) as [[g2|g2]|]; simpl; try done.
  by rewrite last_resort_duplicate_originals.
Qed.

(** C3: an illegal edge is counted once, and then resolved as the
    specification orders it: the first legal pair among the duplicates of
    the source with the target, the source with the duplicates of the
    target, and the cross product of both lists; failing that, a forced
    duplicate of the source when it is not a boundary vertex, then of the
    target likewise, each with a new test of the edge. A forced duplicate
    is a new vertex the mesh makes from the original input vertex of the
    position; it is written at the position and registered under that
    input vertex ([duplicated]). *)
Theorem illegal_edge_resolution_order g s t vs vt :
  s ≠ t → in_range g s t →
  face_vertices_ g !! s = Some vs → face_vertices_ g !! t = Some vt →
  halfedge_is_legel (mesh_ g) vs vt = false →
  ∃ g', find_or_duplicate_edge g s t = Some g' ∧
    find_or_duplicate_edge_spec g s t = Some g' ∧
    num_non_manifold_edges_ g' = (num_non_manifold_edges_ g + 1)%N.
Proof.
  intros Hne Hr Hs Ht Hill.
  destruct (find_or_duplicate_edge_illegal g s t vs vt Hr Hs Ht Hill) as (g' & Hg' & Hstep).
  exists g'. split_and!; [done | by rewrite <- find_or_duplicate_edge_refines |].
  by apply edge_step_counted.
Qed.

(** *** The last resort *)

(** C4: when the resolution of an illegal edge comes to the last resort
    with both endpoints still the original input vertices, both are
    duplicated, the second without any test of the edge in between: the
    state returned is the one the search left with a new vertex made from
    the input vertex of [s], written at [s] and registered under it, and
    then a new vertex made from the input vertex of [t], written at [t] and
    registered under it. With exactly one endpoint still original, that one
    alone is duplicated in this way; with none, nothing is. *)
Theorem last_resort_duplicates_originals g s t a b g5 v1 v2 os ot :
  s ≠ t →
  face_vertices_ g !! s = Some a → face_vertices_ g !! t = Some b →
  halfedge_is_legel (mesh_ g) a b = false →
  search_and_duplicate (incr_non_manifold_edges g) s t = Some (Next g5) →
  face_vertices_ g5 !! s = Some v1 → face_vertices_ g5 !! t = Some v2 →
  input_face_vertices_ g5 !! s = Some os → input_face_vertices_ g5 !! t = Some ot →
  (v1 = os → v2 = ot →
     find_or_duplicate_edge g s t = Some (duplicated (duplicated g5 s os) t ot)) ∧
  (v1 = os → v2 ≠ ot →
     find_or_duplicate_edge g s t = Some (duplicated g5 s os)) ∧
  (v1 ≠ os → v2 = ot →
     find_or_duplicate_edge g s t = Some (duplicated g5 t ot)) ∧
  (v1 ≠ os → v2 ≠ ot →
     find_or_duplicate_edge g s t = Some g5).
Proof.
  intros Hne Ha Hb Hill Hsearch Hs Ht His Hit.
  assert (find_or_duplicate_edge g s t = last_resort g5 s t) as ->.
  { unfold find_or_duplicate_edge. rewrite Ha, Hb. simpl. rewrite Hill. simpl.
    rewrite Hsearch. simpl. by destruct (last_resort g5 s t). }
  rewrite (last_resort_cases g5 s t v1 v2 os ot) by done.
  split_and!; intros H1 H2.
  - by rewrite !decide_True.
  - by rewrite decide_True, decide_False.
  - by rewrite decide_False, decide_True.
  - by rewrite !decide_False.
Qed.

(** *** Which duplicates are consulted *)


Lemma same_but_copies_refl g : same_but_copies g g.
Proof. done. Qed.












End guard_facts.

(** * Further properties *)

Section guard_more_facts.
Context {vec3 Mesh : Type} `{!SurfaceMesh vec3 Mesh}.
Implicit Types (g : ManifoldGuard Mesh) (m : Mesh) (s t : nat) (v : Vertex).

(** *** The scan for repeated indices and the handles *)

(** X1: the nested scan of lines 124-131 answers true exactly when two
    positions of the list, a first and a later one, hold the same index. *)
Theorem duplicate_scan_finds_repeats (vs : list N) :
  has_duplicated_vertices vs = true ↔
  ∃ i j x, (i < j)%nat ∧ vs !! i = Some x ∧ vs !! j = Some x.
Proof.
  induction vs as [|x vs IH]; simpl.
  - split; [done | by intros (i & j & y & _ & ? & _)].
  - destruct (equals_a_later_entry x vs) eqn:Hlater.
    + split; [intros _ | done].
      apply equals_a_later_entry_true, list_elem_of_lookup in Hlater as [j Hj].
      exists 0%nat, (S j), x. split_and!; [lia | done | done].
    + rewrite IH. split.
      * intros (i & j & y & Hij & Hi & Hj). exists (S i), (S j), y.
        split_and!; [lia | done | done].
      * intros (i & j & y & Hij & Hi & Hj).
        destruct j as [|j]; [lia |]. destruct i as [|i].
        -- simpl in Hi, Hj. injection Hi as <-.
           assert (equals_a_later_entry x vs = true) as Hx
             by (apply equals_a_later_entry_true, list_elem_of_lookup; eauto).
           congruence.
        -- exists i, j, y. split_and!; [lia | done | done].
Qed.

Lemma int_of_unsigned_inj (u u' : N) :
  (u < 2 ^ 32)%N → (u' < 2 ^ 32)%N → int_of_unsigned u = int_of_unsigned u' → u = u'.
Proof.
  change (2 ^ 32)%N with 4294967296%N. unfold int_of_unsigned.
  change (2 ^ 32) with 4294967296. change (2 ^ 31) with 2147483648.
  intros Hu Hu'. rewrite !Z.mod_small by lia.
  destruct (Z.ltb_spec (Z.of_N u) 2147483648), (Z.ltb_spec (Z.of_N u') 2147483648); lia.
Qed.

(** X2: 32-bit indices that are pairwise distinct become pairwise distinct
    vertex handles; an index below 2^31 becomes the handle of that number. *)
Theorem distinct_indices_distinct_handles (vs : list N) :
  Forall (λ u, (u < 2 ^ 32)%N) vs → NoDup vs →
  NoDup (vertex_of_index <$> vs) ∧
  ∀ u, u ∈ vs → (u < 2 ^ 31)%N → vertex_of_index u = mkVertex (Z.of_N u).
Proof.
  intros Hbound Hnd. split.
  - apply NoDup_fmap_2_strong; [| done].
    intros u u' Hu Hu' [= Heq]. rewrite Forall_forall in Hbound.
    apply int_of_unsigned_inj; auto.
  - intros u _ Hu. unfold vertex_of_index, int_of_unsigned. f_equal.
    revert Hu. change (2 ^ 31)%N with 2147483648%N.
    change (2 ^ 32) with 4294967296. change (2 ^ 31) with 2147483648.
    intros Hu. rewrite Z.mod_small by lia.
    destruct (Z.ltb_spec (Z.of_N u) 2147483648); lia.
Qed.

(** *** [add_face]: bounds, buffers and counters *)

(** X3: [add_face] never makes edge resolution read [face_vertices_] or
    [input_face_vertices_] outside their bounds. In the model such a read
    is the one step without a result, and the mesh answers every handle; so
    the fact reads: [add_face] has a result for every state and every index
    list, whatever the two buffers held before, although edge resolution by
    itself has none for a position outside the working list. What the mesh
    does with a handle that names no vertex is not part of it. *)
Theorem add_face_reads_in_bounds :
  (∀ g (vs : list N), ∃ g' f, add_face g vs = Some (g', f)) ∧
  (∀ g s t,
     (length (face_vertices_ g) ≤ s)%nat ∨ (length (face_vertices_ g) ≤ t)%nat →
     find_or_duplicate_edge g s t = None).
Proof.
  split.
  - intros g vs. destruct (add_face_total g vs) as [[g' f] Hadd]. eauto.
  - intros g s t Hout. unfold find_or_duplicate_edge.
    destruct (face_vertices_ g !! s) as [a|] eqn:Hs; [| done].
    destruct (face_vertices_ g !! t) as [b|] eqn:Ht; [| done].
    apply lookup_lt_Some in Hs, Ht. lia.
Qed.

Lemma add_face_accepted_inv g (vs : list N) g' f :
  (3 ≤ length vs)%nat → NoDup vs → add_face g vs = Some (g', f) →
  ∃ g4, resolve_edges (with_face g vs) (length vs) (seq 0 (length vs)) = Some g4 ∧
    edges_resolved (length vs) (with_face g vs) g4 ∧
    g' = set_mesh (mesh_add_face (mesh_ g4) (face_vertices_ g4)).1 g4 ∧
    f = (mesh_add_face (mesh_ g4) (face_vertices_ g4)).2.
Proof.
  intros Hlen Hnd Hadd. rewrite add_face_accepted in Hadd by done.
  destruct (resolve_edges_resolved (with_face g vs) (length vs) (seq 0 (length vs)))
    as (g4 & Hg4 & Hres).
  - lia.
  - destruct g; simpl. by rewrite length_fmap.
  - destruct g; simpl. by rewrite length_fmap.
  - apply Forall_forall. intros s Hs%elem_of_seq. lia.
  - rewrite Hg4 in Hadd. simpl in Hadd. injection Hadd as <- <-.
    exists g4. rewrite length_seq in Hres. done.
Qed.

(** X4: after a face that passes both checks, [input_face_vertices_] holds
    the caller's vertices, [face_vertices_] has as many entries as the
    caller gave, and the handle returned is the mesh's answer for
    [face_vertices_]. *)
Theorem accepted_face_buffers g (vs : list N) g' f :
  (3 ≤ length vs)%nat → NoDup vs → add_face g vs = Some (g', f) →
  input_face_vertices_ g' = vertex_of_index <$> vs ∧
  length (face_vertices_ g') = length vs ∧
  ∃ m, (mesh_ g', f) = mesh_add_face m (face_vertices_ g').
Proof.
  intros Hlen Hnd Hadd.
  destruct (add_face_accepted_inv g vs g' f Hlen Hnd Hadd) as (g4 & _ & Hres & -> & ->).
  destruct Hres as (Hinp & Hfv & _).
  assert (input_face_vertices_ (with_face g vs) = vertex_of_index <$> vs) as Hi
    by (by destruct g).
  assert (length (face_vertices_ (with_face g vs)) = length vs) as Hl
    by (destruct g; simpl; by rewrite length_fmap).
  split_and!.
  - destruct g4; simpl in *. congruence.
  - destruct g4; simpl in *. congruence.
  - exists (mesh_ g4). destruct g4; simpl. symmetry. apply surjective_pairing.
Qed.

(** X5: what the two buffers held before the call has no influence on a
    face that passes both checks. *)
Theorem add_face_ignores_stale_buffers g (vs : list N) (l l' : list Vertex) :
  (3 ≤ length vs)%nat → NoDup vs →
  add_face (set_input_face_vertices l (set_face_vertices l' g)) vs = add_face g vs.
Proof.
  intros Hlen Hnd. rewrite !add_face_accepted by done. by destruct g.
Qed.

Lemma cyclic_edges_elem (l : list Vertex) a b :
  (a, b) ∈ cyclic_edges l →
  ∃ s, (s < length l)%nat ∧ l !! s = Some a ∧ l !! ((s + 1) `mod` length l)%nat = Some b.
Proof.
  destruct l as [|x r]; [by intros ?%elem_of_nil |]. unfold cyclic_edges.
  intros (s & Hs)%list_elem_of_lookup.
  apply lookup_zip_with_Some in Hs as (a' & b' & [= <- <-] & Ha & Hb).
  pose proof (lookup_lt_Some _ _ _ Ha) as Hlt.
  exists s. split_and!; [done | done |].
  change (length (x :: r)) with (S (length r)) in *.
  destruct (decide (s < length r)%nat) as [Hsr | Hsr].
  - rewrite Nat.mod_small by lia. rewrite lookup_app_l in Hb by done.
    by replace (s + 1)%nat with (S s) by lia.
  - assert (s = length r) as -> by lia.
    replace (length r + 1)%nat with (S (length r)) by lia.
    rewrite Nat.Div0.mod_same. rewrite lookup_app_r, Nat.sub_diag in Hb by lia. done.
Qed.

Lemma resolve_edges_uncounted g nb (ss : list nat) g' :
  (0 < nb)%nat → length (face_vertices_ g) = nb → length (input_face_vertices_ g) = nb →
  Forall (λ s, s < nb)%nat ss →
  resolve_edges g nb ss = Some g' →
  num_non_manifold_edges_ g' = num_non_manifold_edges_ g →
  g' = g ∧
  ∀ s a b, s ∈ ss → face_vertices_ g !! s = Some a →
    face_vertices_ g !! ((s + 1) `mod` nb)%nat = Some b →
    halfedge_is_legel (mesh_ g) a b = true.
Proof.
  intros Hnb Hf Hi Hss. revert g' .
  induction Hss as [|s ss Hs Hss IH]; intros g' Hres Hnme; simpl in Hres.
  - injection Hres as <-. split; [done |]. by intros s a b ?%elem_of_nil.
  - assert (in_range g s ((s + 1) `mod` nb)) as Hr.
    { unfold in_range. rewrite Hf, Hi. split_and!; [lia | | done].
      apply Nat.mod_upper_bound. lia. }
    pose proof Hr as (Hsr & Htr & _).
    destruct (lookup_lt_is_Some_2 _ _ Hsr) as [a Ha].
    destruct (lookup_lt_is_Some_2 _ _ Htr) as [b Hb].
    destruct (halfedge_is_legel (mesh_ g) a b) eqn:Hlegal.
    + rewrite (find_or_duplicate_edge_legal g s _ a b Ha Hb Hlegal) in Hres.
      cbn [mbind option_bind] in Hres.
      destruct (IH g' Hres Hnme) as [-> Hall]. split; [done |].
      intros s' a' b' [-> | Hin]%elem_of_cons Ha' Hb'; [congruence | eauto].
    + exfalso.
      destruct (find_or_duplicate_edge_illegal g s _ a b Hr Ha Hb Hlegal) as (g1 & Hg1 & Hstep).
      rewrite Hg1 in Hres. cbn [mbind option_bind] in Hres.
      apply edge_step_counted in Hstep as [(Hi1 & Hl1 & _) Hone].
      destruct (resolve_edges_resolved g1 nb ss Hnb ltac:(congruence) ltac:(congruence) Hss)
        as (g2 & Hg2 & Hres2).
      rewrite Hg2 in Hres. injection Hres as <-.
      destruct Hres2 as (_ & _ & _ & _ & _ & _ & Hmono & _). lia.
Qed.

(** X6: a face that passes both checks leaves the two rejection counters
    alone and counts at most one non-manifold edge per edge of the face; it
    counts none exactly when every directed edge of the face, the closing
    one included, is legal in the mesh as the call finds it. *)
Theorem accepted_face_counters g (vs : list N) g' f :
  (3 ≤ length vs)%nat → NoDup vs → add_face g vs = Some (g', f) →
  num_faces_less_three_vertices_ g' = num_faces_less_three_vertices_ g ∧
  num_faces_duplicated_vertices_ g' = num_faces_duplicated_vertices_ g ∧
  (num_non_manifold_edges_ g ≤ num_non_manifold_edges_ g'
     ≤ num_non_manifold_edges_ g + N.of_nat (length vs))%N ∧
  (num_non_manifold_edges_ g' = num_non_manifold_edges_ g ↔
   Forall (λ e, halfedge_is_legel (mesh_ g) e.1 e.2 = true)
     (cyclic_edges (vertex_of_index <$> vs))).
Proof.
  intros Hlen Hnd Hadd.
  destruct (add_face_accepted_inv g vs g' f Hlen Hnd Hadd) as (g4 & Hg4 & Hres & -> & ->).
  pose proof Hres as (_ & _ & _ & Hless & Hdup & _ & Hnme & _).
  assert (num_faces_less_three_vertices_ (with_face g vs) = num_faces_less_three_vertices_ g ∧
          num_faces_duplicated_vertices_ (with_face g vs) = num_faces_duplicated_vertices_ g ∧
          num_non_manifold_edges_ (with_face g vs) = num_non_manifold_edges_ g ∧
          mesh_ (with_face g vs) = mesh_ g ∧
          face_vertices_ (with_face g vs) = vertex_of_index <$> vs ∧
          input_face_vertices_ (with_face g vs) = vertex_of_index <$> vs)
    as (Hc2 & Hc3 & Hc4 & Hm & Hfv & Hinp) by (by destruct g).
  assert (∀ m, num_faces_less_three_vertices_ (set_mesh m g4) = num_faces_less_three_vertices_ g4 ∧
               num_faces_duplicated_vertices_ (set_mesh m g4) = num_faces_duplicated_vertices_ g4 ∧
               num_non_manifold_edges_ (set_mesh m g4) = num_non_manifold_edges_ g4)
    as Hset by (intros; by destruct g4).
  destruct (Hset (mesh_add_face (mesh_ g4) (face_vertices_ g4)).1) as (-> & -> & ->).
  split_and!; [congruence | congruence | lia | lia |].
  split.
  - intros Hsame.
    assert (length (face_vertices_ (with_face g vs)) = length vs) as H1
      by (by rewrite Hfv, length_fmap).
    assert (length (input_face_vertices_ (with_face g vs)) = length vs) as H2
      by (by rewrite Hinp, length_fmap).
    assert (Forall (λ s, s < length vs)%nat (seq 0 (length vs))) as H3
      by (apply Forall_forall; intros s Hs%elem_of_seq; lia).
    assert (num_non_manifold_edges_ g4 = num_non_manifold_edges_ (with_face g vs)) as H4
      by congruence.
    destruct (resolve_edges_uncounted (with_face g vs) (length vs) (seq 0 (length vs)) g4
                ltac:(lia) H1 H2 H3 Hg4 H4) as [_ Hall].
    + rewrite Hm, Hfv in Hall. apply Forall_forall. intros [a b] Hab.
      apply cyclic_edges_elem in Hab as (s & Hs & Ha & Hb).
      rewrite length_fmap in Hs, Hb. simpl.
      apply (Hall s a b); [apply elem_of_seq; lia | done | done].
  - intros Hlegal.
    pose proof (resolve_edges_all_legal (with_face g vs) (seq 0 (length vs))) as Hall.
    rewrite Hfv, Hm, length_fmap in Hall. rewrite Hall in Hg4.
    + injection Hg4 as <-. done.
    + apply Forall_forall. intros s Hs%elem_of_seq. lia.
    + done.
Qed.

(** *** A rule for edge resolution

    Whatever relation between states is reflexive and transitive and holds
    across each of the writes edge resolution can make (a substitute from the
    copy relation put at [s], at [t] or at both; a forced duplicate put at
    [s] or at [t]) holds between the state after the counter and the state
    returned. *)

Section resolution_rule.
Variables (s t : nat) (R : ManifoldGuard Mesh → ManifoldGuard Mesh → Prop).
Hypothesis R_refl : ∀ g, R g g.
Hypothesis R_trans : ∀ g1 g2 g3, R g1 g2 → R g2 g3 → R g1 g3.
Hypothesis R_substitute_s : ∀ g vs l v,
  face_vertices_ g !! s = Some vs → copies_ g !! vs = Some l → v ∈ l →
  R g (set_face_vertices (<[s := v]> (face_vertices_ g)) g).
Hypothesis R_substitute_t : ∀ g vt l v,
  face_vertices_ g !! t = Some vt → copies_ g !! vt = Some l → v ∈ l →
  R g (set_face_vertices (<[t := v]> (face_vertices_ g)) g).
Hypothesis R_substitute_both : ∀ g vs vt ls lt a b,
  face_vertices_ g !! s = Some vs → face_vertices_ g !! t = Some vt →
  copies_ g !! vs = Some ls → copies_ g !! vt = Some lt → a ∈ ls → b ∈ lt →
  R g (set_face_vertices (<[t := b]> (<[s := a]> (face_vertices_ g))) g).
Hypothesis R_duplicate_s : ∀ g k orig,
  face_vertices_ g !! s = Some k → input_face_vertices_ g !! s = Some orig →
  R g (duplicate_endpoint g s orig).
Hypothesis R_duplicate_t : ∀ g k orig,
  face_vertices_ g !! t = Some k → input_face_vertices_ g !! t = Some orig →
  R g (duplicate_endpoint g t orig).

Let step_R (g : ManifoldGuard Mesh) (r : option (flow Mesh)) : Prop :=
  ∀ f, r = Some f → R g (flow_guard f).

Lemma and_then_R g r k :
  step_R g r → (∀ g1, r = Some (Next g1) → step_R g1 (k g1)) → step_R g (and_then r k).
Proof.
  intros Hr Hk f Hf. destruct r as [[g1|g1]|]; simpl in Hf; [by apply Hr | | done].
  eapply R_trans; [by apply (Hr (Next g1)) | by apply (Hk g1)].
Qed.

Lemma try_copies_of_s_R g vs l0 l :
  face_vertices_ g !! s = Some vs → copies_ g !! vs = Some l0 → (∀ v, v ∈ l → v ∈ l0) →
  step_R g (try_copies_of_s g s t l).
Proof.
  intros Hs Hc. induction l as [|v l IH]; intros Hsub f; simpl.
  - intros [= <-]. apply R_refl.
  - destruct (face_vertices_ g !! t) as [vt|]; simpl; [| done].
    destruct (halfedge_is_legel _ _ _).
    + intros [= <-]. eapply R_substitute_s; [done | done |]. apply Hsub. by left.
    + apply IH. intros v' Hv'. apply Hsub. by right.
Qed.

Lemma try_copies_of_t_R g vt l0 l :
  face_vertices_ g !! t = Some vt → copies_ g !! vt = Some l0 → (∀ v, v ∈ l → v ∈ l0) →
  step_R g (try_copies_of_t g s t l).
Proof.
  intros Ht Hc. induction l as [|v l IH]; intros Hsub f; simpl.
  - intros [= <-]. apply R_refl.
  - destruct (face_vertices_ g !! s) as [vs|]; simpl; [| done].
    destruct (halfedge_is_legel _ _ _).
    + intros [= <-]. eapply R_substitute_t; [done | done |]. apply Hsub. by left.
    + apply IH. intros v' Hv'. apply Hsub. by right.
Qed.

Lemma try_copies_inner_next g a lt g1 :
  try_copies_inner g s t a lt = Some (Next g1) → g1 = g.
Proof.
  induction lt as [|b lt IH]; simpl; [by intros [= <-] |].
  destruct (halfedge_is_legel _ _ _); [done | apply IH].
Qed.

Lemma try_copies_inner_R g vs vt ls lt0 a lt :
  face_vertices_ g !! s = Some vs → face_vertices_ g !! t = Some vt →
  copies_ g !! vs = Some ls → copies_ g !! vt = Some lt0 → a ∈ ls →
  (∀ b, b ∈ lt → b ∈ lt0) →
  step_R g (try_copies_inner g s t a lt).
Proof.
  intros Hs Ht Hcs Hct Ha. induction lt as [|b lt IH]; intros Hsub f; simpl.
  - intros [= <-]. apply R_refl.
  - destruct (halfedge_is_legel _ _ _).
    + intros [= <-]. eapply R_substitute_both; try done. apply Hsub. by left.
    + apply IH. intros b' Hb'. apply Hsub. by right.
Qed.

Lemma try_copies_of_both_R g vs vt ls0 lt ls :
  face_vertices_ g !! s = Some vs → face_vertices_ g !! t = Some vt →
  copies_ g !! vs = Some ls0 → copies_ g !! vt = Some lt → (∀ a, a ∈ ls → a ∈ ls0) →
  step_R g (try_copies_of_both g s t ls lt).
Proof.
  intros Hs Ht Hcs Hct. induction ls as [|a ls IH]; intros Hsub f; simpl.
  - intros [= <-]. apply R_refl.
  - apply and_then_R.
    + eapply try_copies_inner_R; try done. apply Hsub. by left.
    + intros g1 ->%try_copies_inner_next. apply IH.
      intros a' Ha'. apply Hsub. by right.
Qed.

Lemma step_copies_of_s_R g : step_R g (step_copies_of_s g s t).
Proof.
  unfold step_copies_of_s.
  destruct (face_vertices_ g !! s) as [vs|] eqn:Hs; simpl; [| done].
  destruct (copies_ g !! vs) as [l|] eqn:Hc.
  - by eapply try_copies_of_s_R.
  - intros f [= <-]. apply R_refl.
Qed.

Lemma step_copies_of_t_R g : step_R g (step_copies_of_t g s t).
Proof.
  unfold step_copies_of_t.
  destruct (face_vertices_ g !! t) as [vt|] eqn:Ht; simpl; [| done].
  destruct (copies_ g !! vt) as [l|] eqn:Hc.
  - by eapply try_copies_of_t_R.
  - intros f [= <-]. apply R_refl.
Qed.

Lemma step_copies_of_both_R g : step_R g (step_copies_of_both g s t).
Proof.
  unfold step_copies_of_both.
  destruct (face_vertices_ g !! s) as [vs|] eqn:Hs; simpl; [| done].
  destruct (copies_ g !! vs) as [ls|] eqn:Hcs; [| intros f [= <-]; apply R_refl].
  destruct (face_vertices_ g !! t) as [vt|] eqn:Ht; simpl; [| done].
  destruct (copies_ g !! vt) as [lt|] eqn:Hct; [| intros f [= <-]; apply R_refl].
  by eapply try_copies_of_both_R.
Qed.

Lemma step_duplicate_s_R g : step_R g (step_duplicate_s g s t).
Proof.
  unfold step_duplicate_s.
  destruct (face_vertices_ g !! s) as [vs|] eqn:Hs; simpl; [| done].
  destruct (negb _); [| intros f [= <-]; apply R_refl].
  destruct (input_face_vertices_ g !! s) as [orig|] eqn:Hi; simpl; [| done].
  destruct (face_vertices_ (duplicate_endpoint g s orig) !! s); simpl; [| done].
  destruct (face_vertices_ (duplicate_endpoint g s orig) !! t); simpl; [| done].
  destruct (halfedge_is_legel _ _ _); intros f [= <-]; by eapply R_duplicate_s.
Qed.

Lemma step_duplicate_t_R g : step_R g (step_duplicate_t g s t).
Proof.
  unfold step_duplicate_t.
  destruct (face_vertices_ g !! t) as [vt|] eqn:Ht; simpl; [| done].
  destruct (negb _); [| intros f [= <-]; apply R_refl].
  destruct (input_face_vertices_ g !! t) as [orig|] eqn:Hi; simpl; [| done].
  destruct (face_vertices_ (duplicate_endpoint g t orig) !! s); simpl; [| done].
  destruct (face_vertices_ (duplicate_endpoint g t orig) !! t); simpl; [| done].
  destruct (halfedge_is_legel _ _ _); intros f [= <-]; by eapply R_duplicate_t.
Qed.

Lemma last_resort_R g g' : last_resort g s t = Some g' → R g g'.
Proof.
  unfold last_resort, copy_if_original.
  destruct (face_vertices_ g !! s) as [vs|] eqn:Hs; simpl; [| done].
  destruct (input_face_vertices_ g !! s) as [os|] eqn:His; simpl; [| done].
  set (g1 := if decide (vs = os) then duplicate_endpoint g s os else g).
  assert (R g g1) as H1
    by (unfold g1; destruct (decide _); [by eapply R_duplicate_s | apply R_refl]).
  assert ((if decide (vs = os) then Some (duplicate_endpoint g s os) else Some g) = Some g1)
    as -> by (unfold g1; by destruct (decide _)).
  simpl.
  destruct (face_vertices_ g1 !! t) as [vt|] eqn:Ht; simpl; [| done].
  destruct (input_face_vertices_ g1 !! t) as [ot|] eqn:Hit; simpl; [| done].
  destruct (decide (vt = ot)); intros [= <-]; [| done].
  eapply R_trans; [done | by eapply R_duplicate_t].
Qed.

Lemma search_and_duplicate_R g : step_R g (search_and_duplicate g s t).
Proof.
  unfold search_and_duplicate.
  apply and_then_R; [apply step_copies_of_s_R |]. intros g1 _.
  apply and_then_R; [apply step_copies_of_t_R |]. intros g2 _.
  apply and_then_R; [apply step_copies_of_both_R |]. intros g3 _.
  apply and_then_R; [apply step_duplicate_s_R |]. intros g4 _.
  apply step_duplicate_t_R.
Qed.

Lemma find_or_duplicate_edge_rule g g' :
  find_or_duplicate_edge g s t = Some g' →
  g' = g ∨ R (incr_non_manifold_edges g) g'.
Proof.
  unfold find_or_duplicate_edge.
  destruct (face_vertices_ g !! s) as [vs|]; simpl; [| done].
  destruct (face_vertices_ g !! t) as [vt|]; simpl; [| done].
  destruct (halfedge_is_legel _ _ _); simpl; [intros [= <-]; by left |].
  destruct (and_then _ _) as [f|] eqn:Hf; simpl; [| done].
  intros [= <-]. right. revert f Hf.
  apply and_then_R; [apply search_and_duplicate_R |].
  intros g5 _ f. destruct (last_resort g5 s t) as [g6|] eqn:Hlast; simpl; [| done].
  intros [= <-]. by apply last_resort_R.
Qed.

End resolution_rule.

(** *** What edge resolution leaves alone *)

(** X7: edge resolution writes [face_vertices_] at the two positions it is
    given and nowhere else, and never writes [input_face_vertices_]. *)
Theorem resolution_touches_two_positions g s t g' :
  find_or_duplicate_edge g s t = Some g' →
  only_positions_touched s t g g' ∧
  input_face_vertices_ g' = input_face_vertices_ g.
Proof.
  intros Hres.
  set (R := λ g1 g2 : ManifoldGuard Mesh,
              only_positions_touched s t g1 g2 ∧
              input_face_vertices_ g2 = input_face_vertices_ g1).
  assert (∀ g1 i v, (i = s ∨ i = t) →
            R g1 (set_face_vertices (<[i := v]> (face_vertices_ g1)) g1)) as Hset.
  { intros g1 i v Hi. split; [| by destruct g1].
    intros j Hs Ht. destruct g1; simpl. apply list_lookup_insert_ne. naive_solver. }
  assert (∀ g1 i orig, (i = s ∨ i = t) → R g1 (duplicate_endpoint g1 i orig)) as Hdup.
  { intros g1 i orig Hi.
    destruct (duplicate_endpoint_fields g1 i orig) as (Hf & Hinp & _). split; [| done].
    intros j Hs Ht. rewrite Hf. apply list_lookup_insert_ne. naive_solver. }
  destruct (find_or_duplicate_edge_rule s t R) with (g := g) (g' := g') as [-> | HR].
  - done.
  - intros g1 g2 g3 [H12 I12] [H23 I23]. split; [| congruence].
    intros i Hs Ht. by rewrite H23, H12.
  - intros g1 vs l v _ _ _. apply Hset. by left.
  - intros g1 vt l v _ _ _. apply Hset. by right.
  - intros g1 vs vt ls lt a b _ _ _ _ _ _. split; [| by destruct g1].
    intros j Hs Ht. destruct g1; simpl. by rewrite !list_lookup_insert_ne.
  - intros g1 k orig _ _. apply Hdup. by left.
  - intros g1 k orig _ _. apply Hdup. by right.
  - done.
  - done.
  - destruct HR as [Htouch Hinp]. split; [| by destruct g].
    intros i Hs Ht. rewrite Htouch by done. by destruct g.
Qed.

(** *** A rule for face insertion

    The same for the whole loop over the edges of a face with at least two
    vertices: a relation that holds across the counter, across one write of
    a registered duplicate and across one forced duplication holds between
    the state the loop starts from and the state it ends in. *)

Section face_rule.
Variable R : ManifoldGuard Mesh → ManifoldGuard Mesh → Prop.
Hypothesis R_refl : ∀ g, R g g.
Hypothesis R_trans : ∀ g1 g2 g3, R g1 g2 → R g2 g3 → R g1 g3.
Hypothesis R_count : ∀ g, R g (incr_non_manifold_edges g).
Hypothesis R_write : ∀ g i k l v,
  face_vertices_ g !! i = Some k → copies_ g !! k = Some l → v ∈ l →
  R g (set_face_vertices (<[i := v]> (face_vertices_ g)) g).
Hypothesis R_duplicate : ∀ g i k orig,
  face_vertices_ g !! i = Some k → input_face_vertices_ g !! i = Some orig →
  R g (duplicate_endpoint g i orig).

Lemma find_or_duplicate_edge_face_rule g s t g' :
  s ≠ t → find_or_duplicate_edge g s t = Some g' → R g g'.
Proof.
  intros Hne Hres.
  destruct (find_or_duplicate_edge_rule s t R) with (g := g) (g' := g') as [-> | HR];
    eauto.
  intros g1 vs vt ls lt a b Hs Ht Hcs Hct Ha Hb.
  set (g2 := set_face_vertices (<[s := a]> (face_vertices_ g1)) g1).
  assert (set_face_vertices (<[t := b]> (<[s := a]> (face_vertices_ g1))) g1
          = set_face_vertices (<[t := b]> (face_vertices_ g2)) g2) as ->
    by (by destruct g1).
  apply (R_trans g1 g2); [by apply (R_write g1 s vs ls a) |].
  apply (R_write g2 t vt lt b); [| by destruct g1 | done].
  unfold g2. destruct g1; simpl in *. by rewrite list_lookup_insert_ne.
Qed.

Lemma next_position_differs s nb : (2 ≤ nb)%nat → (s < nb)%nat → s ≠ ((s + 1) `mod` nb)%nat.
Proof.
  intros Hnb Hs. destruct (decide (s + 1 < nb)%nat) as [Hlt | Hge].
  - rewrite Nat.mod_small by done. lia.
  - assert (s + 1 = nb)%nat as -> by lia. rewrite Nat.Div0.mod_same. lia.
Qed.

Lemma resolve_edges_face_rule g nb (ss : list nat) g' :
  (2 ≤ nb)%nat → Forall (λ s, s < nb)%nat ss →
  resolve_edges g nb ss = Some g' → R g g'.
Proof.
  intros Hnb Hss. revert g.
  induction Hss as [|s ss Hs Hss IH]; intros g; simpl.
  - intros [= <-]. apply R_refl.
  - destruct (find_or_duplicate_edge g s _) as [g1|] eqn:H1; simpl; [| done].
    intros Hrest. eapply R_trans; [| by apply IH].
    eapply find_or_duplicate_edge_face_rule; [| done]. by apply next_position_differs.
Qed.

End face_rule.

(** The three ways [add_face] can go. *)
Lemma add_face_cases g (vs : list N) g' f :
  add_face g vs = Some (g', f) →
  (too_few vs = true ∧ g' = incr_faces_less_three_vertices g ∧ f = invalid_face) ∨
  (repeated vs = true ∧ g' = incr_faces_duplicated_vertices g ∧ f = invalid_face) ∨
  (too_few vs = false ∧ repeated vs = false ∧ (3 ≤ length vs)%nat ∧ NoDup vs ∧
   ∃ g4, resolve_edges (with_face g vs) (length vs) (seq 0 (length vs)) = Some g4 ∧
     edges_resolved (length vs) (with_face g vs) g4 ∧
     g' = set_mesh (mesh_add_face (mesh_ g4) (face_vertices_ g4)).1 g4 ∧
     f = (mesh_add_face (mesh_ g4) (face_vertices_ g4)).2).
Proof.
  intros Hadd. unfold too_few, repeated.
  destruct (length vs <? 3)%nat eqn:Hlen.
  - left. apply Nat.ltb_lt in Hlen. rewrite add_face_too_few in Hadd by done.
    injection Hadd as <- <-. done.
  - apply Nat.ltb_ge in Hlen. right. simpl.
    destruct (has_duplicated_vertices vs) eqn:Hdup.
    + left. apply has_duplicated_vertices_true in Hdup.
      rewrite add_face_repeated in Hadd by done. injection Hadd as <- <-. done.
    + right. apply has_duplicated_vertices_false in Hdup.
      split_and!; try done. by apply add_face_accepted_inv.
Qed.

Lemma seq_below n : Forall (λ s, s < n)%nat (seq 0 n).
Proof. apply Forall_forall. intros s Hs%elem_of_seq. lia. Qed.

(** X8: [add_face] changes the copy relation only under vertices the caller
    names in that call; every other key keeps its list, and a key that had
    none gets none. *)
Theorem add_face_registers_under_callers_vertices g (vs : list N) g' f :
  add_face g vs = Some (g', f) →
  ∀ k, k ∉ (vertex_of_index <$> vs) → copies_ g' !! k = copies_ g !! k.
Proof.
  intros Hadd k Hk.
  destruct (add_face_cases g vs g' f Hadd)
    as [(_ & -> & _) | [(_ & -> & _) | (_ & _ & Hlen & Hnd & g4 & Hg4 & _ & -> & _)]];
    [by destruct g | by destruct g |].
  set (R := λ g1 g2 : ManifoldGuard Mesh,
              input_face_vertices_ g2 = input_face_vertices_ g1 ∧
              ∀ k, k ∉ input_face_vertices_ g1 → copies_ g2 !! k = copies_ g1 !! k).
  assert (R (with_face g vs) g4) as [_ HR].
  { apply (resolve_edges_face_rule R) with (nb := length vs) (ss := seq 0 (length vs));
      [done | | | | | lia | apply seq_below | done].
    - intros g1 g2 g3 [I12 H12] [I23 H23]. split; [congruence |].
      intros k' Hk'. rewrite H23, H12; [done | done | by rewrite I12].
    - intros g1. by destruct g1.
    - intros g1 i k' l v _ _ _. by destruct g1.
    - intros g1 i k' orig _ Horig.
      destruct (duplicate_endpoint_fields g1 i orig) as (_ & Hinp & _ & Hcp).
      split; [done |]. intros k'' Hk''. rewrite Hcp. apply lookup_insert_ne.
      intros ->. apply Hk''. by eapply list_elem_of_lookup_2. }
  assert (copies_ (set_mesh (mesh_add_face (mesh_ g4) (face_vertices_ g4)).1 g4) = copies_ g4)
    as -> by (by destruct g4).
  rewrite HR; by destruct g.
Qed.

(** X9: for a face that passes both checks, the mesh that receives the face
    is the mesh of the call after the duplications: one call
    [add_vertex(points[o])] for each vertex [o] of a list of vertices the
    caller named in this face, in turn. The guard inserts no other vertex
    and no face, and deletes nothing, on the way. *)
Theorem accepted_face_only_inserts_copies g (vs : list N) g' f :
  (3 ≤ length vs)%nat → NoDup vs → add_face g vs = Some (g', f) →
  ∃ os, Forall (λ o, o ∈ vertex_of_index <$> vs) os ∧
    (mesh_ g', f) = mesh_add_face (insert_copies (mesh_ g) os) (face_vertices_ g').
Proof.
  intros Hlen Hnd Hadd.
  destruct (add_face_accepted_inv g vs g' f Hlen Hnd Hadd) as (g4 & Hg4 & _ & -> & ->).
  set (R := λ g1 g2 : ManifoldGuard Mesh,
              input_face_vertices_ g2 = input_face_vertices_ g1 ∧
              ∃ os, Forall (λ o, o ∈ input_face_vertices_ g1) os ∧
                mesh_ g2 = insert_copies (mesh_ g1) os).
  assert (R (with_face g vs) g4) as (_ & os & Hos & Hmesh).
  { apply (resolve_edges_face_rule R) with (nb := length vs) (ss := seq 0 (length vs));
      [| | | | | lia | apply seq_below | done].
    - intros g1. split; [done |]. by exists [].
    - intros g1 g2 g3 (I12 & os1 & F1 & M1) (I23 & os2 & F2 & M2). split; [congruence |].
      exists (os1 ++ os2). split.
      + apply Forall_app. split; [done |]. by rewrite <- I12.
      + unfold insert_copies in *. by rewrite foldl_app, <- M1.
    - intros g1. split; [by destruct g1 |]. exists []. by destruct g1.
    - intros g1 i k l v _ _ _. split; [by destruct g1 |]. exists []. by destruct g1.
    - intros g1 i k orig _ Horig.
      destruct (duplicate_endpoint_fields g1 i orig) as (_ & Hinp & Hm & _).
      split; [done |]. exists [orig]. split; [| done].
      constructor; [| done]. by eapply list_elem_of_lookup_2. }
  exists os. split.
  - by destruct g.
  - rewrite Hmesh. destruct g, g4; simpl. symmetry. apply surjective_pairing.
Qed.

(** *** Batches and sessions *)

Lemma add_faces_in_turn_total g (fs : list (list N)) : is_Some (add_faces_in_turn g fs).
Proof.
  revert g. induction fs as [|vs fs IH]; intros g; simpl; [eauto |].
  destruct (add_face_total g vs) as [[g1 f] ->]. simpl.
  destruct (IH g1) as [[g2 hs] ->]. simpl. eauto.
Qed.

(** X10: a batch of [add_face] calls returns one handle per index list; the
    too-few-vertices counter grows by the number of lists shorter than
    three, the duplicated-vertices counter by the number of lists of three
    or more entries with a repeat, and each of these lists gets the invalid
    handle. *)
Theorem rejected_faces_are_counted g (fs : list (list N)) :
  ∃ g' hs, add_faces_in_turn g fs = Some (g', hs) ∧
    length hs = length fs ∧
    num_faces_less_three_vertices_ g'
      = (num_faces_less_three_vertices_ g
         + N.of_nat (length (filter (λ vs, too_few vs = true) fs)))%N ∧
    num_faces_duplicated_vertices_ g'
      = (num_faces_duplicated_vertices_ g
         + N.of_nat (length (filter (λ vs, repeated vs = true) fs)))%N ∧
    ∀ i vs, fs !! i = Some vs → too_few vs = true ∨ repeated vs = true →
      hs !! i = Some invalid_face.
Proof.
  revert g. induction fs as [|vs fs IH]; intros g.
  - exists g, []. split_and!; try done; simpl; lia.
  - destruct (add_face_total g vs) as [[g1 f] Hadd].
    destruct (IH g1) as (g2 & hs & Hrest & Hlen & Hless & Hdup & Hinv).
    exists g2, (f :: hs). cbn [add_faces_in_turn]. rewrite Hadd. simpl. rewrite Hrest. simpl.
    split; [done |]. split; [by rewrite Hlen |].
    rewrite !filter_cons.
    assert (repeated vs = true → too_few vs = false) as Hexcl
      by (unfold repeated, too_few; by destruct (length vs <? 3)%nat).
    destruct (add_face_cases g vs g1 f Hadd)
      as [(Hfew & -> & ->) | [(Hrep & -> & ->) | (Hfew & Hrep & _ & _ & g4 & _ & Hres & -> & _)]].
    + assert (repeated vs ≠ true) as Hrep by (intros ?%Hexcl; congruence).
      rewrite decide_True, decide_False by done.
      split_and!.
      * rewrite Hless. destruct g; simpl. lia.
      * rewrite Hdup. by destruct g.
      * intros [|i] vs'; simpl; [done | apply Hinv].
    + rewrite (decide_False (P := too_few vs = true)) by (rewrite Hexcl; done).
      rewrite decide_True by done.
      split_and!.
      * rewrite Hless. by destruct g.
      * rewrite Hdup. destruct g; simpl. lia.
      * intros [|i] vs'; simpl; [done | apply Hinv].
    + rewrite !decide_False by congruence.
      destruct Hres as (_ & _ & _ & Hl & Hd & _).
      split_and!.
      * rewrite Hless. destruct g, g4; simpl in *. congruence.
      * rewrite Hdup. destruct g, g4; simpl in *. congruence.
      * intros [|i] vs'; simpl; [| apply Hinv].
        intros [= <-] [? | ?]; congruence.
Qed.

(** X11: in every state of a session the two buffers have the same length,
    every key of the copy relation has at least one duplicate, and the two
    counters that only [finish] writes are zero. *)
Theorem session_invariants g :
  in_session g →
  length (input_face_vertices_ g) = length (face_vertices_ g) ∧
  (∀ k l, copies_ g !! k = Some l → l ≠ []) ∧
  num_isolated_vertices_ g = 0%N ∧ num_non_manifold_vertices_ g = 0%N.
Proof.
  intros Hsession. split_and!; [| | by apply in_session_counters..].
  - induction Hsession as [g | g p _ IH | g vs g' f _ IH Hadd]; [done | |].
    + rewrite add_vertex_unfold. by destruct g.
    + destruct (add_face_cases g vs g' f Hadd)
        as [(_ & -> & _) | [(_ & -> & _) | (_ & _ & _ & _ & g4 & _ & Hres & -> & _)]];
        [by destruct g | by destruct g |].
      destruct Hres as (Hinp & Hfv & _).
      destruct g, g4; simpl in *. rewrite Hinp, Hfv. by rewrite !length_fmap.
  - induction Hsession as [g | g p _ IH | g vs g' f _ IH Hadd].
    + intros k l. simpl. by rewrite lookup_empty.
    + rewrite add_vertex_unfold. by destruct g.
    + destruct (add_face_cases g vs g' f Hadd)
        as [(_ & -> & _) | [(_ & -> & _) | (_ & _ & Hlen & _ & g4 & Hg4 & _ & -> & _)]];
        [by destruct g | by destruct g |].
      set (P := λ g1 : ManifoldGuard Mesh, ∀ k l, copies_ g1 !! k = Some l → l ≠ []).
      assert (P (with_face g vs) → P g4) as HP.
      { apply (resolve_edges_face_rule (λ g1 g2, P g1 → P g2))
          with (nb := length vs) (ss := seq 0 (length vs));
          [| | | | | lia | apply seq_below | done]; unfold P.
        - done.
        - intros g1 g2 g3 H12 H23 H1. by apply H23, H12.
        - intros g1. by destruct g1.
        - intros g1 i k l v _ _ _. by destruct g1.
        - intros g1 i k orig _ _ H1 k' l.
          destruct (duplicate_endpoint_fields g1 i orig) as (_ & _ & _ & ->).
          destruct (decide (k' = orig)) as [-> | Hne].
          + rewrite lookup_insert_eq. intros [= <-]. by intros [_ ?]%app_eq_nil.
          + rewrite lookup_insert_ne by done. apply H1. }
      assert (P g4) as H4 by (apply HP; unfold P; by destruct g).
      unfold P in H4. by destruct g4.
Qed.

(** *** How edge resolution ends *)

Lemma and_then_Done (r : option (flow Mesh)) k g1 :
  and_then r k = Some (Done g1) →
  r = Some (Done g1) ∨ ∃ g2, r = Some (Next g2) ∧ k g2 = Some (Done g1).
Proof. destruct r as [[g2|g2]|]; simpl; [by left | | done]. intros Hk. right. eauto. Qed.

Lemma try_copies_of_s_Done g s t l g1 :
  s ≠ t → is_Some (face_vertices_ g !! s) →
  try_copies_of_s g s t l = Some (Done g1) → legal_at g1 s t.
Proof.
  intros Hne Hs%lookup_lt_is_Some. induction l as [|v l IH]; simpl; [done |].
  destruct (face_vertices_ g !! t) as [vt|] eqn:Ht; simpl; [| done].
  destruct (halfedge_is_legel (mesh_ g) v vt) eqn:Hlegal; [| done].
  intros [= <-]. exists v, vt. destruct g; simpl in *.
  by rewrite list_lookup_insert_eq, list_lookup_insert_ne.
Qed.

Lemma try_copies_of_t_Done g s t l g1 :
  s ≠ t → is_Some (face_vertices_ g !! t) →
  try_copies_of_t g s t l = Some (Done g1) → legal_at g1 s t.
Proof.
  intros Hne Ht%lookup_lt_is_Some. induction l as [|v l IH]; simpl; [done |].
  destruct (face_vertices_ g !! s) as [vs|] eqn:Hs; simpl; [| done].
  destruct (halfedge_is_legel (mesh_ g) vs v) eqn:Hlegal; [| done].
  intros [= <-]. exists vs, v. destruct g; simpl in *.
  by rewrite list_lookup_insert_eq, list_lookup_insert_ne.
Qed.

Lemma try_copies_inner_Done g s t a lt g1 :
  s ≠ t → is_Some (face_vertices_ g !! s) → is_Some (face_vertices_ g !! t) →
  try_copies_inner g s t a lt = Some (Done g1) → legal_at g1 s t.
Proof.
  intros Hne Hs%lookup_lt_is_Some Ht%lookup_lt_is_Some.
  induction lt as [|b lt IH]; simpl; [done |].
  destruct (halfedge_is_legel (mesh_ g) a b) eqn:Hlegal; [| done].
  intros [= <-]. exists a, b. destruct g; simpl in *.
  rewrite list_lookup_insert_ne, !list_lookup_insert_eq by (done || by rewrite length_insert).
  done.
Qed.

Lemma try_copies_of_both_Done g s t ls lt g1 :
  s ≠ t → is_Some (face_vertices_ g !! s) → is_Some (face_vertices_ g !! t) →
  try_copies_of_both g s t ls lt = Some (Done g1) → legal_at g1 s t.
Proof.
  intros Hne Hs Ht. induction ls as [|a ls IH]; simpl; [done |].
  intros [Hin | (g2 & Hnext & Hrest)]%and_then_Done.
  - by eapply try_copies_inner_Done.
  - apply try_copies_inner_next in Hnext as ->. by apply IH.
Qed.

Lemma step_duplicate_Done g i s t orig g1 :
  (a ← face_vertices_ (duplicate_endpoint g i orig) !! s;
   b ← face_vertices_ (duplicate_endpoint g i orig) !! t;
   if halfedge_is_legel (mesh_ (duplicate_endpoint g i orig)) a b
   then Some (Done (duplicate_endpoint g i orig))
   else Some (Next (duplicate_endpoint g i orig))) = Some (Done g1) →
  legal_at g1 s t.
Proof.
  destruct (face_vertices_ _ !! s) as [a|] eqn:Ha; simpl; [| done].
  destruct (face_vertices_ _ !! t) as [b|] eqn:Hb; simpl; [| done].
  destruct (halfedge_is_legel _ a b) eqn:Hlegal; [| done].
  intros [= <-]. by exists a, b.
Qed.

Lemma search_and_duplicate_Done g s t g1 :
  s ≠ t → search_and_duplicate g s t = Some (Done g1) → legal_at g1 s t.
Proof.
  intros Hne. unfold search_and_duplicate.
  intros [H1 | (g2 & _ & H2)]%and_then_Done.
  { unfold step_copies_of_s in H1.
    destruct (face_vertices_ g !! s) as [vs|] eqn:Hs; simpl in H1; [| done].
    destruct (copies_ g !! vs); [| done].
    eapply try_copies_of_s_Done; [done | | done]. by rewrite Hs. }
  apply and_then_Done in H2 as [H2 | (g3 & _ & H3)].
  { unfold step_copies_of_t in H2.
    destruct (face_vertices_ g2 !! t) as [vt|] eqn:Ht; simpl in H2; [| done].
    destruct (copies_ g2 !! vt); [| done].
    eapply try_copies_of_t_Done; [done | | done]. by rewrite Ht. }
  apply and_then_Done in H3 as [H3 | (g4 & _ & H4)].
  { unfold step_copies_of_both in H3.
    destruct (face_vertices_ g3 !! s) as [vs|] eqn:Hs; simpl in H3; [| done].
    destruct (copies_ g3 !! vs); [| done].
    destruct (face_vertices_ g3 !! t) as [vt|] eqn:Ht; simpl in H3; [| done].
    destruct (copies_ g3 !! vt); [| done].
    eapply try_copies_of_both_Done; [done | | | done]; by rewrite ?Hs, ?Ht. }
  apply and_then_Done in H4 as [H4 | (g5 & _ & H5)].
  { unfold step_duplicate_s in H4.
    destruct (face_vertices_ g4 !! s); simpl in H4; [| done].
    destruct (negb _); [| done].
    destruct (input_face_vertices_ g4 !! s) as [orig|]; simpl in H4; [| done].
    by eapply step_duplicate_Done. }
  unfold step_duplicate_t in H5.
  destruct (face_vertices_ g5 !! t); simpl in H5; [| done].
  destruct (negb _); [| done].
  destruct (input_face_vertices_ g5 !! t) as [orig|]; simpl in H5; [| done].
  by eapply step_duplicate_Done.
Qed.

(** X12: for two different positions, edge resolution ends in one of two
    ways: the edge now at these positions is legal in the mesh of the state
    returned, or the search and both forced duplications fell through and
    the state returned is the one the last resort made. *)
Theorem resolution_outcomes g s t g' :
  s ≠ t → find_or_duplicate_edge g s t = Some g' →
  legal_at g' s t ∨
  ∃ g5, search_and_duplicate (incr_non_manifold_edges g) s t = Some (Next g5) ∧
    last_resort g5 s t = Some g'.
Proof.
  intros Hne. unfold find_or_duplicate_edge.
  destruct (face_vertices_ g !! s) as [a|] eqn:Hs; simpl; [| done].
  destruct (face_vertices_ g !! t) as [b|] eqn:Ht; simpl; [| done].
  destruct (halfedge_is_legel (mesh_ g) a b) eqn:Hlegal; simpl.
  { intros [= <-]. left. by exists a, b. }
  destruct (search_and_duplicate (incr_non_manifold_edges g) s t) as [[g1|g5]|] eqn:Hsearch;
    simpl; [| | done].
  - intros [= <-]. left. by eapply search_and_duplicate_Done.
  - destruct (last_resort g5 s t) as [g6|] eqn:Hlast; simpl; [| done].
    intros [= <-]. right. eauto.
Qed.

(** *** The message of [finish] *)

Lemma report_lines_fold (cts : list (N * string)) (msg : string) (flag : bool) :
  foldl (λ acc ct, report_line ct.1 ct.2 acc) (msg, flag) cts =
    (foldl String.append msg
       ((λ ct, newline_tab +:+ pretty ct.1 +:+ ct.2) <$> filter (λ ct, ct.1 ≠ 0%N) cts),
     flag || bool_decide (filter (λ ct, ct.1 ≠ 0%N) cts ≠ [])).
Proof.
  revert msg flag. induction cts as [|[c text] cts IH]; intros msg flag; simpl.
  - by rewrite orb_false_r.
  - rewrite filter_cons. unfold report_line at 2. simpl.
    destruct (N.ltb_spec 0 c) as [Hpos | Hzero].
    + rewrite decide_True by lia. rewrite IH. simpl. by rewrite orb_true_r.
    + rewrite decide_False by lia. by rewrite IH.
Qed.

(** X13: the message of [finish] is the heading followed by one line for
    each counter that is not zero after the two loops, in the order
    isolated, too few, duplicated, non-manifold edges, non-manifold
    vertices; with all five at zero there is no message. *)
Theorem finish_message g :
  (finish g).2 =
    match report_lines (counters (finish g).1) with
    | [] => None
    | lines => Some (foldl String.append "mesh has topological issues:"%string lines)
    end.
Proof.
  unfold finish. cbn [fst snd].
  set (g1 := foldl delete_if_isolated g (vertices (mesh_ g))).
  set (g2 := set_mesh (garbage_collection (mesh_ g1)) g1).
  rewrite count_non_manifold_loop. cbn -[filter report_line report_lines].
  clearbody g1. clear g2.
  set (b := (num_non_manifold_vertices_ g1 + _)%N). clearbody b.
  pose proof (report_lines_fold
    (zip [num_isolated_vertices_ g1; num_faces_less_three_vertices_ g1;
          num_faces_duplicated_vertices_ g1; num_non_manifold_edges_ g1; b] report_texts)
    "mesh has topological issues:" false) as Hfold.
  cbn [zip zip_with report_texts foldl fst snd] in Hfold.
  rewrite Hfold. cbn [fst snd orb]. unfold report_lines, counters.
  cbn [num_isolated_vertices_ num_faces_less_three_vertices_
    num_faces_duplicated_vertices_ num_non_manifold_edges_ num_non_manifold_vertices_
    zip zip_with report_texts].
  destruct (filter _ _) as [|ct cts]; simpl; done.
Qed.

(** *** The vertices the guard holds *)

Lemma handles_in_mesh_set_mesh g m' :
  mesh_extends (mesh_ g) m' → handles_in_mesh g → handles_in_mesh (set_mesh m' g).
Proof.
  intros Hext [Hc Hb]. split.
  - intros k l v Hk Hv. destruct g; simpl in *.
    destruct (Hc k l v Hk Hv). split; by apply Hext.
  - intros i v o Hv Ho. destruct g; simpl in *.
    destruct (Hb i v o Hv Ho). split; by apply Hext.
Qed.

Lemma handles_in_mesh_write g i k l v :
  face_vertices_ g !! i = Some k → copies_ g !! k = Some l → v ∈ l →
  handles_in_mesh g → handles_in_mesh (set_face_vertices (<[i := v]> (face_vertices_ g)) g).
Proof.
  intros Hi Hk Hv [Hc Hb]. split.
  - intros k' l' v' Hk' Hv'. destruct g; simpl in *. eauto.
  - intros j v' o Hj Ho.
    assert (mesh_ (set_face_vertices (<[i := v]> (face_vertices_ g)) g) = mesh_ g ∧
            face_vertices_ (set_face_vertices (<[i := v]> (face_vertices_ g)) g)
              = <[i := v]> (face_vertices_ g) ∧
            input_face_vertices_ (set_face_vertices (<[i := v]> (face_vertices_ g)) g)
              = input_face_vertices_ g) as (Hm & Hf & Hinp) by (by destruct g).
    rewrite Hm. rewrite Hf in Hj. rewrite Hinp in Ho.
    apply list_lookup_insert_Some in Hj as [(<- & <- & _) | (Hne & Hj)]; [| eauto].
    destruct (Hc k l v Hk Hv) as [_ Hvm].
    destruct (Hb i k o Hi Ho) as [Hom _].
    done.
Qed.

Lemma handles_in_mesh_duplicate g i k orig :
  vertex_insertion_keeps_vertices → duplicate_is_new_vertex →
  face_vertices_ g !! i = Some k → input_face_vertices_ g !! i = Some orig →
  handles_in_mesh g → handles_in_mesh (duplicate_endpoint g i orig).
Proof.
  intros [_ Hkeep] Hnew Hi Ho [Hc Hb].
  destruct (duplicate_endpoint_fields g i orig) as (Hf & Hinp & Hm & Hcp).
  destruct (Hnew (mesh_ g) orig) as [_ Hin].
  assert (mesh_extends (mesh_ g) (mesh_add_vertex_from (mesh_ g) orig).1) as Hext
    by (intros w Hw; by apply Hkeep).
  set (m' := (mesh_add_vertex_from (mesh_ g) orig).1) in *.
  set (nv := (mesh_add_vertex_from (mesh_ g) orig).2) in *.
  destruct (Hb i k orig Hi Ho) as [Horig _].
  split.
  - intros k' l' v'. rewrite Hcp, Hm. destruct (decide (k' = orig)) as [-> | Hne].
    + rewrite lookup_insert_eq.
      intros [= <-] [Hold | ->%list_elem_of_singleton]%elem_of_app;
        [| split; [by apply Hext | done]].
      destruct (copies_ g !! orig) as [l0|] eqn:Hl0; simpl in Hold;
        [| by apply elem_of_nil in Hold].
      destruct (Hc orig l0 v' Hl0 Hold). split; by apply Hext.
    + rewrite lookup_insert_ne by done. intros Hk' Hv'.
      destruct (Hc k' l' v' Hk' Hv'). split; by apply Hext.
  - intros j v' o. rewrite Hf, Hinp, Hm.
    intros [(<- & <- & _) | (Hne & Hj)]%list_lookup_insert_Some Hoj.
    + replace o with orig by congruence. split; [by apply Hext | done].
    + destruct (Hb j v' o Hj Hoj). split; by apply Hext.
Qed.

Lemma resolve_edges_handles_in_mesh g nb (ss : list nat) g' :
  vertex_insertion_keeps_vertices → duplicate_is_new_vertex →
  (2 ≤ nb)%nat → Forall (λ s, s < nb)%nat ss →
  resolve_edges g nb ss = Some g' → handles_in_mesh g → handles_in_mesh g'.
Proof.
  intros Hkeep Hnew Hnb Hss Hres.
  apply (resolve_edges_face_rule (λ g1 g2, handles_in_mesh g1 → handles_in_mesh g2))
    with (nb := nb) (ss := ss); [| | | | | done | done | done].
  - done.
  - intros g1 g2 g3 H12 H23 H1. by apply H23, H12.
  - intros g1 [Hc Hb]. split; destruct g1; simpl in *; eauto.
  - intros g1 i k l v. apply handles_in_mesh_write.
  - intros g1 i k orig. by apply handles_in_mesh_duplicate.
Qed.

Lemma with_face_handles_in_mesh g (vs : list N) :
  indices_name_vertices (mesh_ g) vs →
  handles_in_mesh g → handles_in_mesh (with_face g vs).
Proof.
  intros Hvalid [Hc Hb]. split.
  - intros k l v Hk Hv. destruct g; simpl in *. eauto.
  - intros i v o Hv Ho.
    assert (face_vertices_ (with_face g vs) = vertex_of_index <$> vs ∧
            input_face_vertices_ (with_face g vs) = vertex_of_index <$> vs ∧
            mesh_ (with_face g vs) = mesh_ g) as (Hf & Hi & Hm) by (by destruct g).
    rewrite Hf in Hv. rewrite Hi in Ho. rewrite Hm.
    assert (o = v) as -> by congruence.
    apply list_lookup_fmap_Some in Hv as (u & -> & Hu).
    unfold indices_name_vertices in Hvalid. rewrite Forall_forall in Hvalid.
    assert (vertex_of_index u ∈ vertices (mesh_ g)) as Hin
      by (apply Hvalid; by eapply list_elem_of_lookup_2).
    done.
Qed.

Lemma add_vertex_handles_in_mesh g p :
  vertex_insertion_keeps_vertices → handles_in_mesh g → handles_in_mesh (add_vertex g p).1.
Proof.
  intros [Hkeep _] Hkept. rewrite add_vertex_unfold. cbn [fst].
  apply handles_in_mesh_set_mesh; [| done]. intros w Hw. by apply Hkeep.
Qed.

Lemma add_face_handles_in_mesh g (vs : list N) g' f :
  vertex_insertion_keeps_vertices → duplicate_is_new_vertex →
  face_insertion_keeps_vertices →
  indices_name_vertices (mesh_ g) vs →
  add_face g vs = Some (g', f) → handles_in_mesh g → handles_in_mesh g'.
Proof.
  intros Hkeep Hnew Hface Hvalid Hadd Hkept.
  destruct (add_face_cases g vs g' f Hadd)
    as [(_ & -> & _) | [(_ & -> & _) | (_ & _ & Hlen & _ & g4 & Hg4 & _ & -> & _)]].
  - destruct Hkept as [Hc Hb]. split; destruct g; simpl in *; eauto.
  - destruct Hkept as [Hc Hb]. split; destruct g; simpl in *; eauto.
  - apply handles_in_mesh_set_mesh; [intros w Hw; by apply Hface |].
    eapply resolve_edges_handles_in_mesh; [done | done | | apply seq_below | done |].
    + lia.
    + by apply with_face_handles_in_mesh.
Qed.

(** X14: on a mesh whose vertex and face insertions keep the vertices it
    has, and whose duplication returns a vertex the mesh did not have and
    has afterwards, [begin] establishes this, [add_vertex] keeps it, and
    [add_face] keeps it when every index it is given names a vertex of the
    mesh: the keys and the duplicates of the copy relation are vertices of
    the mesh, and so are the entries of the two buffers at the positions
    they share. *)
Theorem handles_stay_in_mesh :
  vertex_insertion_keeps_vertices → duplicate_is_new_vertex →
  face_insertion_keeps_vertices →
  (∀ g, handles_in_mesh (begin g)) ∧
  (∀ g p, handles_in_mesh g → handles_in_mesh (add_vertex g p).1) ∧
  (∀ g (vs : list N) g' f,
     indices_name_vertices (mesh_ g) vs →
     add_face g vs = Some (g', f) → handles_in_mesh g → handles_in_mesh g').
Proof.
  intros Hkeep Hnew Hface. split_and!.
  - intros g. split; [intros k l v; simpl; by rewrite lookup_empty | by intros [|i] v o].
  - intros g p. by apply add_vertex_handles_in_mesh.
  - intros g vs g' f. by apply add_face_handles_in_mesh.
Qed.

(** *** The corners of an inserted face *)

Lemma copy_of_grows (c c' : gmap Vertex (list Vertex)) o v :
  copies_grow c c' → copy_of c o v → copy_of c' o v.
Proof.
  intros Hgrow. induction 1 as [|k l v _ IH Hk Hv]; [constructor |].
  destruct (Hgrow k l Hk) as [l' Hk'].
  apply (copy_of_step c' o k (l ++ l') v IH Hk'). apply elem_of_app. by left.
Qed.

Lemma corners_are_copies_write g i k l v :
  face_vertices_ g !! i = Some k → copies_ g !! k = Some l → v ∈ l →
  corners_are_copies g →
  corners_are_copies (set_face_vertices (<[i := v]> (face_vertices_ g)) g).
Proof.
  intros Hi Hk Hv Hcorners j v' o Hj Ho.
  assert (copies_ (set_face_vertices (<[i := v]> (face_vertices_ g)) g) = copies_ g ∧
          face_vertices_ (set_face_vertices (<[i := v]> (face_vertices_ g)) g)
            = <[i := v]> (face_vertices_ g) ∧
          input_face_vertices_ (set_face_vertices (<[i := v]> (face_vertices_ g)) g)
            = input_face_vertices_ g) as (Hc & Hf & Hinp) by (by destruct g).
  rewrite Hc. rewrite Hf in Hj. rewrite Hinp in Ho.
  apply list_lookup_insert_Some in Hj as [(<- & <- & _) | (Hne & Hj)];
    [| by apply (Hcorners j)].
  apply (copy_of_step (copies_ g) o k l v); [by apply (Hcorners i) | done | done].
Qed.

Lemma corners_are_copies_duplicate g i orig :
  input_face_vertices_ g !! i = Some orig →
  corners_are_copies g → corners_are_copies (duplicate_endpoint g i orig).
Proof.
  intros Ho Hcorners j v' o.
  destruct (duplicate_endpoint_fields g i orig) as (Hf & Hinp & _ & Hcp).
  rewrite Hf, Hinp, Hcp.
  set (nv := (mesh_add_vertex_from (mesh_ g) orig).2).
  set (c' := <[orig := default [] (copies_ g !! orig) ++ [nv]]> (copies_ g)).
  assert (copies_grow (copies_ g) c') as Hgrow.
  { intros k l Hk. unfold c'. destruct (decide (k = orig)) as [-> | Hne].
    - exists [nv]. by rewrite lookup_insert_eq, Hk.
    - exists []. by rewrite lookup_insert_ne, app_nil_r. }
  intros [(<- & <- & _) | (Hne & Hj)]%list_lookup_insert_Some Hoj.
  - replace o with orig by congruence.
    apply (copy_of_step c' orig orig (default [] (copies_ g !! orig) ++ [nv]) nv).
    + constructor.
    + unfold c'. apply lookup_insert_eq.
    + apply elem_of_app. right. by apply list_elem_of_singleton.
  - apply (copy_of_grows (copies_ g)); [done |]. by apply (Hcorners j).
Qed.

(** X15: a face that passes both checks reaches the mesh as a polygon with
    as many corners as the caller gave indices, and each corner is the
    vertex the caller named for it or comes from that vertex through the
    copy relation: a duplicate of it, or a duplicate of such a vertex. *)
Theorem inserted_corners_are_copies g (vs : list N) g' f :
  (3 ≤ length vs)%nat → NoDup vs → add_face g vs = Some (g', f) →
  ∃ m, (mesh_ g', f) = mesh_add_face m (face_vertices_ g') ∧
    length (face_vertices_ g') = length vs ∧
    ∀ i u v, vs !! i = Some u → face_vertices_ g' !! i = Some v →
      copy_of (copies_ g') (vertex_of_index u) v.
Proof.
  intros Hlen Hnd Hadd.
  destruct (add_face_accepted_inv g vs g' f Hlen Hnd Hadd) as (g4 & Hg4 & Hres & -> & ->).
  assert (corners_are_copies g4) as Hcorners.
  { apply (resolve_edges_face_rule (λ g1 g2, corners_are_copies g1 → corners_are_copies g2))
      with (g := with_face g vs) (nb := length vs) (ss := seq 0 (length vs));
      [| | | | | lia | apply seq_below | done |].
    - done.
    - intros g1 g2 g3 H12 H23 H1. by apply H23, H12.
    - intros g1 H1 i v o Hv Ho. destruct g1; simpl in *. by apply (H1 i).
    - intros g1 i k l v. apply corners_are_copies_write.
    - intros g1 i k orig _. apply corners_are_copies_duplicate.
    - intros i v o Hv Ho.
      assert (face_vertices_ (with_face g vs) = input_face_vertices_ (with_face g vs))
        as Hsame by (by destruct g).
      rewrite Hsame in Hv. replace v with o by congruence. constructor. }
  assert (face_vertices_ (set_mesh (mesh_add_face (mesh_ g4) (face_vertices_ g4)).1 g4)
          = face_vertices_ g4 ∧
          copies_ (set_mesh (mesh_add_face (mesh_ g4) (face_vertices_ g4)).1 g4)
          = copies_ g4) as [Hf Hc] by (by destruct g4).
  rewrite Hf, Hc.
  destruct Hres as (Hinp & Hlen4 & _).
  assert (input_face_vertices_ (with_face g vs) = vertex_of_index <$> vs ∧
          face_vertices_ (with_face g vs) = vertex_of_index <$> vs) as [Hi0 Hf0]
    by (by destruct g).
  exists (mesh_ g4). split_and!.
  - destruct g4; simpl. symmetry. apply surjective_pairing.
  - by rewrite Hlen4, Hf0, length_fmap.
  - intros i u v Hu Hv. apply (Hcorners i v (vertex_of_index u) Hv).
    rewrite Hinp, Hi0. by apply list_lookup_fmap_Some_2.
Qed.

(** *** The copy relation *)

(** X18: the vertex [copy_vertex] returns is the one the mesh made from the
    entry of the vertex copied; it is appended to the copy relation under
    that vertex, the other entries being untouched; [add_vertex] and
    [finish] leave the relation alone, [add_face] only appends to it, and
    [begin] empties it. *)
Theorem copy_relation_grows :
  (∀ g v,
     (mesh_ (copy_vertex g v).1, (copy_vertex g v).2) = mesh_add_vertex_from (mesh_ g) v ∧
     copies_ (copy_vertex g v).1 !! v
       = Some (default [] (copies_ g !! v) ++ [(copy_vertex g v).2]) ∧
     ∀ k, k ≠ v → copies_ (copy_vertex g v).1 !! k = copies_ g !! k) ∧
  (∀ g p, copies_ (add_vertex g p).1 = copies_ g) ∧
  (∀ g vs g' f, add_face g vs = Some (g', f) → copies_grow (copies_ g) (copies_ g')) ∧
  (∀ g, copies_ (finish g).1 = copies_ g) ∧
  (∀ g, copies_ (begin g) = ∅).
Proof.
  split_and!.
  - intros g v. rewrite copy_vertex_unfold. destruct g as [m c1 c2 c3 c4 c5 inp fv cp]; simpl.
    split_and!.
    + symmetry. apply surjective_pairing.
    + apply lookup_insert_eq.
    + intros k Hk. by apply lookup_insert_ne.
  - intros g p. rewrite add_vertex_unfold. by destruct g.
  - intros g vs g' f Hadd. by destruct (add_face_frame _ _ _ _ Hadd) as (_ & _ & ?).
  - intros g. unfold finish. simpl.
    assert (∀ l g0, copies_ (foldl count_if_non_manifold g0 l) = copies_ g0) as Hcount.
    { induction l as [|v l IH]; intros g0; simpl; [done |].
      rewrite IH. unfold count_if_non_manifold. destruct (negb _); by destruct g0. }
    assert (∀ l g0, copies_ (foldl delete_if_isolated g0 l) = copies_ g0) as Hdel.
    { induction l as [|v l IH]; intros g0; simpl; [done |].
      rewrite IH. unfold delete_if_isolated. destruct (is_isolated _ _); by destruct g0. }
    rewrite Hcount. simpl. apply Hdel.
  - done.
Qed.

(** *** [finish] on any mesh *)

Lemma delete_isolated_loop_frame (l : list Vertex) g :
  let g1 := foldl delete_if_isolated g l in
  (num_isolated_vertices_ g ≤ num_isolated_vertices_ g1
     ≤ num_isolated_vertices_ g + N.of_nat (length l))%N ∧
  num_faces_less_three_vertices_ g1 = num_faces_less_three_vertices_ g ∧
  num_faces_duplicated_vertices_ g1 = num_faces_duplicated_vertices_ g ∧
  num_non_manifold_edges_ g1 = num_non_manifold_edges_ g ∧
  num_non_manifold_vertices_ g1 = num_non_manifold_vertices_ g ∧
  input_face_vertices_ g1 = input_face_vertices_ g ∧
  face_vertices_ g1 = face_vertices_ g ∧ copies_ g1 = copies_ g.
Proof.
  revert g. induction l as [|v l IH]; intros g; cbn zeta.
  - simpl. split_and!; try done; lia.
  - cbn [foldl length]. specialize (IH (delete_if_isolated g v)). cbn zeta in IH.
    destruct IH as (Hb & -> & -> & -> & -> & -> & -> & ->).
    unfold delete_if_isolated in *. destruct (is_isolated (mesh_ g) v).
    + destruct g; simpl in *. split_and!; try done; lia.
    + split_and!; try done; lia.
Qed.

(** X16: on any mesh and in any state, [finish] leaves the three counters
    of [add_face], both buffers and the copy relation as they are; the
    isolated-vertex counter grows by at most the number of vertices of the
    mesh before the call, the non-manifold-vertex counter by at most the
    number of vertices of the mesh after it. *)
Theorem finish_frame g :
  num_faces_less_three_vertices_ (finish g).1 = num_faces_less_three_vertices_ g ∧
  num_faces_duplicated_vertices_ (finish g).1 = num_faces_duplicated_vertices_ g ∧
  num_non_manifold_edges_ (finish g).1 = num_non_manifold_edges_ g ∧
  same_buffers g (finish g).1 ∧
  (num_isolated_vertices_ g ≤ num_isolated_vertices_ (finish g).1
     ≤ num_isolated_vertices_ g + N.of_nat (length (vertices (mesh_ g))))%N ∧
  (num_non_manifold_vertices_ g ≤ num_non_manifold_vertices_ (finish g).1
     ≤ num_non_manifold_vertices_ g + N.of_nat (length (vertices (mesh_ (finish g).1))))%N.
Proof.
  unfold finish. cbn [fst].
  destruct (delete_isolated_loop_frame (vertices (mesh_ g)) g)
    as (Hiso & H1 & H2 & H3 & H4 & H5 & H6 & H7). cbn zeta in *.
  set (g1 := foldl delete_if_isolated g (vertices (mesh_ g))) in *. clearbody g1.
  rewrite count_non_manifold_loop.
  unfold same_buffers.
  cbn [mesh_ set_mesh num_faces_less_three_vertices_ num_faces_duplicated_vertices_
    num_non_manifold_edges_ num_non_manifold_vertices_ num_isolated_vertices_
    input_face_vertices_ face_vertices_ copies_].
  pose proof (length_filter
    (λ v, is_manifold (garbage_collection (mesh_ g1)) v = false)
    (vertices (garbage_collection (mesh_ g1)))) as Hle.
  destruct g1; simpl in *. split_and!; try done; lia.
Qed.

(** *** Each duplicate is registered once *)

Lemma registered_once_duplicate g i k orig :
  duplicate_is_new_vertex →
  face_vertices_ g !! i = Some k → input_face_vertices_ g !! i = Some orig →
  handles_in_mesh g → registered_once g → registered_once (duplicate_endpoint g i orig).
Proof.
  intros Hfresh Hi Ho [Hc Hb] Honce.
  destruct (duplicate_endpoint_fields g i orig) as (_ & _ & _ & Hcp).
  destruct (Hfresh (mesh_ g) orig) as [Hnew _].
  set (nv := (mesh_add_vertex_from (mesh_ g) orig).2) in *.
  destruct (Hb i k orig Hi Ho) as [Horig _].
  assert (∀ k' l', copies_ g !! k' = Some l' → nv ∉ l') as Hnot.
  { intros k' l' Hk' Hin. by destruct (Hc k' l' nv Hk' Hin) as [_ ?]. }
  assert (nv ≠ orig) as Hne by (intros Heq; by rewrite Heq in Hnew).
  intros k' l'. rewrite Hcp. destruct (decide (k' = orig)) as [-> | Hk'].
  - rewrite lookup_insert_eq. intros [= <-].
    destruct (copies_ g !! orig) as [l0|] eqn:Hl0; simpl.
    + destruct (Honce orig l0 Hl0) as (Hnd & Hself & Hdisj). split_and!.
      * apply NoDup_app. split_and!; [done | | apply NoDup_singleton].
        intros v Hv ->%list_elem_of_singleton. by apply (Hnot orig l0).
      * intros [? | ?%list_elem_of_singleton]%elem_of_app; [by apply Hself | congruence].
      * intros k'' l'' Hk'' Hdiff v. rewrite lookup_insert_ne in Hk'' by congruence.
        intros [Hv | ->%list_elem_of_singleton]%elem_of_app;
          [by apply (Hdisj k'' l'') | by apply (Hnot k'' l'')].
    + split_and!.
      * apply NoDup_singleton.
      * intros ?%list_elem_of_singleton. congruence.
      * intros k'' l'' Hk'' Hdiff v. rewrite lookup_insert_ne in Hk'' by congruence.
        intros ->%list_elem_of_singleton. by apply (Hnot k'' l'').
  - rewrite lookup_insert_ne by done. intros Hl'.
    destruct (Honce k' l' Hl') as (Hnd & Hself & Hdisj). split_and!; [done | done |].
    intros k'' l''. destruct (decide (k'' = orig)) as [-> | Hk''].
    + rewrite lookup_insert_eq. intros [= <-] _ v Hv.
      intros [Hin | ->%list_elem_of_singleton]%elem_of_app; [| by apply (Hnot k' l')].
      destruct (copies_ g !! orig) as [l0|] eqn:Hl0; simpl in Hin;
        [| by apply elem_of_nil in Hin].
      assert (orig ≠ k') as Hdiff by congruence.
      by apply (Hdisj orig l0 Hl0 Hdiff v).
    + rewrite lookup_insert_ne by done. apply Hdisj.
Qed.

Lemma resolve_edges_registered_once g nb (ss : list nat) g' :
  vertex_insertion_keeps_vertices → duplicate_is_new_vertex →
  (2 ≤ nb)%nat → Forall (λ s, s < nb)%nat ss →
  resolve_edges g nb ss = Some g' →
  handles_in_mesh g ∧ registered_once g → handles_in_mesh g' ∧ registered_once g'.
Proof.
  intros Hkeep Hfresh Hnb Hss Hres.
  apply (resolve_edges_face_rule
           (λ g1 g2, handles_in_mesh g1 ∧ registered_once g1 →
                     handles_in_mesh g2 ∧ registered_once g2))
    with (nb := nb) (ss := ss); [| | | | | done | done | done].
  - done.
  - intros g1 g2 g3 H12 H23 H1. by apply H23, H12.
  - intros g1 [[Hc Hb] Honce]. split; [split |]; destruct g1; simpl in *; eauto.
  - intros g1 i k l v Hi Hk Hv [Hkept Honce]. split; [by eapply handles_in_mesh_write |].
    by destruct g1.
  - intros g1 i k orig Hi Ho [Hkept Honce].
    split; [by eapply handles_in_mesh_duplicate | by eapply registered_once_duplicate].
Qed.

(** X17: on a mesh whose vertex and face insertions keep the vertices it
    has, and whose duplication returns a vertex the mesh did not have and
    has afterwards, [begin] establishes the following two facts together,
    [add_vertex] keeps them, and [add_face] keeps them when every index it
    is given names a vertex of the mesh. First, every vertex the guard
    holds is a vertex of the mesh. Second, no list of the copy relation
    repeats a vertex or holds its own key, and no vertex is a duplicate of
    two vertices. *)
Theorem duplicates_are_registered_once :
  vertex_insertion_keeps_vertices → duplicate_is_new_vertex →
  face_insertion_keeps_vertices →
  (∀ g, handles_in_mesh (begin g) ∧ registered_once (begin g)) ∧
  (∀ g p, handles_in_mesh g ∧ registered_once g →
     handles_in_mesh (add_vertex g p).1 ∧ registered_once (add_vertex g p).1) ∧
  (∀ g (vs : list N) g' f,
     indices_name_vertices (mesh_ g) vs →
     add_face g vs = Some (g', f) →
     handles_in_mesh g ∧ registered_once g →
     handles_in_mesh g' ∧ registered_once g').
Proof.
  intros Hkeep Hfresh Hface. split_and!.
  - intros g. split; [| intros k l; simpl; by rewrite lookup_empty].
    split; [intros k l v; simpl; by rewrite lookup_empty | by intros [|i] v o].
  - intros g p [Hkept Honce]. split; [by apply add_vertex_handles_in_mesh |].
    rewrite add_vertex_unfold. by destruct g.
  - intros g vs g' f Hvalid Hadd [Hkept Honce].
    split; [by eapply add_face_handles_in_mesh |].
    destruct (add_face_cases g vs g' f Hadd)
      as [(_ & -> & _) | [(_ & -> & _) | (_ & _ & Hlen & _ & g4 & Hg4 & _ & -> & _)]];
      [by destruct g | by destruct g |].
    assert (handles_in_mesh g4 ∧ registered_once g4) as [_ H4].
    { eapply resolve_edges_registered_once; [done | done | | apply seq_below | done |].
      - lia.
      - split; [by apply with_face_handles_in_mesh | by destruct g]. }
    by destruct g4.
Qed.

End guard_more_facts.

(** ** The executable mesh meets what the guard relies on *)

Module PolygonMeshFacts.
Import PolygonMesh.

Lemma keeps_position : add_vertex_keeps_position (Mesh := t).
Proof.
  intros m p. simpl. unfold position, lookup_vertex, insert_vertex. simpl.
  assert ((Z.of_nat (length (vertex_data m)) <? 0) = false) as -> by (apply Z.ltb_ge; lia).
  rewrite Nat2Z.id, lookup_app_r, Nat.sub_diag by lia. done.
Qed.

Lemma interior_after_insertion : inserted_face_is_interior (Mesh := t).
Proof.
  intros m vs a b. simpl. unfold insert_face.
  destruct (_ && _) eqn:Hchecks; [| done]. simpl. intros _ Hab.
  set (hs := halfedges m ++ _).
  assert ((a, b) ∈ hs) as Hin.
  { unfold hs. destruct (decide ((a, b) ∈ halfedges m)) as [Hold | Hnew].
    - apply elem_of_app. by left.
    - apply elem_of_app. right. apply list_elem_of_In, in_flat_map.
      exists (a, b). split; [| by left].
      apply list_elem_of_In, list_elem_of_filter. done. }
  destruct (list_find_elem_of (λ e, e = (a, b)) hs (a, b) Hin eq_refl) as [[i x] Hfind].
  unfold halfedge_between. cbn [halfedges]. fold hs. rewrite Hfind.
  apply list_find_Some in Hfind as (Hi & -> & _).
  split; [unfold halfedge_is_valid; simpl; apply negb_true_iff, Z.eqb_neq; lia |].
  unfold halfedge_on_boundary, halfedge_ends. cbn [h_idx halfedges]. fold hs.
  assert ((Z.of_nat i <? 0) = false) as -> by (apply Z.ltb_ge; lia).
  rewrite Nat2Z.id, Hi. unfold has_face. cbn [faces].
  rewrite bool_decide_true; [done |].
  apply Exists_app. right. by constructor.
Qed.

Lemma filter_nil_complement {A} (P : A → Prop) `{!∀ x, Decision (P x)} (l : list A) :
  filter P l = [] → filter (λ x, ¬ P x) l = l.
Proof.
  induction l as [|x l IH]; [done |]. rewrite !filter_cons.
  destruct (decide (P x)); [done |]. intros Hnil.
  rewrite decide_True by done. by rewrite IH.
Qed.

Lemma isolated_is_local : deleting_isolated_is_local (Mesh := t).
Proof.
  split.
  - intros m. simpl. unfold live_vertices.
    apply NoDup_fmap_2; [| apply NoDup_filter, NoDup_seq].
    intros i j [= Hij]. lia.
  - intros m v w. simpl. unfold vertex_is_isolated, incident, remove_vertex. simpl.
    intros Hiso%bool_decide_eq_true _.
    by rewrite (filter_nil_complement (λ e, e.1 = v ∨ e.2 = v) (halfedges m) Hiso).
Qed.

End PolygonMeshFacts.

(** ** The theorems at work on the executable mesh *)

Module ScenarioFacts.
Import PolygonMesh PolygonMeshFacts Scenario.

Lemma add_vertices_in_session (g : ManifoldGuard t) (ps : list vec3) :
  in_session g → in_session (add_vertices g ps).
Proof.
  revert g. induction ps as [|p ps IH]; intros g Hg; [done |].
  apply IH. by apply session_add_vertex.
Qed.

Lemma three_vertices_in_session : in_session three_vertices.
Proof.
  change (in_session (add_vertices fresh_guard [(0, 0, 0); (1, 0, 0); (0, 1, 0)])).
  apply add_vertices_in_session, session_begin.
Qed.

Lemma triangle_and_stray_in_session : in_session triangle_and_stray.
Proof.
  apply (session_add_face four_vertices [0; 1; 2]%N triangle_and_stray (mkFace 0)).
  - change (in_session (add_vertices fresh_guard [(0, 0, 0); (1, 0, 0); (0, 1, 0); (5, 5, 5)])).
    apply add_vertices_in_session, session_begin.
  - vm_compute. reflexivity.
Qed.

(** Scenario C on the executable mesh: the triangle [0,1,2] goes in with a
    valid handle; the same indices again count one non-manifold edge, and
    the face goes in as [3,4,2] with a valid handle too. *)
Lemma second_identical_face_is_counted :
  in_session three_vertices ∧
  add_face three_vertices [0; 1; 2]%N = Some (one_triangle, mkFace 0) ∧
  face_is_valid (mkFace 0) = true ∧
  add_face one_triangle [0; 1; 2]%N = Some (two_triangles, mkFace 1) ∧
  face_is_valid (mkFace 1) = true ∧
  face_vertices_ two_triangles = [mkVertex 3; mkVertex 4; mkVertex 2] ∧
  num_non_manifold_edges_ one_triangle = 0%N ∧
  num_non_manifold_edges_ two_triangles = 1%N ∧
  counters two_triangles ≠ counters one_triangle.
Proof.
  split; [apply three_vertices_in_session |].
  split_and!; try (vm_compute; reflexivity).
  vm_compute. discriminate.
Qed.

Lemma second_identical_face_witness :
  ∃ g2 f2, add_face one_triangle [0; 1; 2]%N = Some (g2, f2) ∧
    (num_non_manifold_edges_ one_triangle + 1 ≤ num_non_manifold_edges_ g2
       ≤ num_non_manifold_edges_ one_triangle + 3)%N ∧
    num_faces_less_three_vertices_ g2 = num_faces_less_three_vertices_ one_triangle ∧
    num_faces_duplicated_vertices_ g2 = num_faces_duplicated_vertices_ one_triangle ∧
    num_non_manifold_vertices_ g2 = num_non_manifold_vertices_ one_triangle ∧
    num_isolated_vertices_ g2 = num_isolated_vertices_ one_triangle ∧
    ∃ m, (mesh_ g2, f2) = mesh_add_face m (face_vertices_ g2).
Proof.
  apply (second_identical_face three_vertices one_triangle (mkFace 0)
           interior_after_insertion).
  - vm_compute. reflexivity.
  - reflexivity.
  - vm_compute. reflexivity.
Defined.

Lemma legal_edge_untouched_witness :
  halfedge_is_legel (mesh_ first_arrival) v0 v1 = true ∧
  find_or_duplicate_edge first_arrival 0 1 = Some first_arrival.
Proof.
  split; [vm_compute; reflexivity |].
  apply (proj2 (legal_edge_untouched (mesh_ first_arrival) v0 v1) first_arrival 0%nat 1%nat).
  - reflexivity.
  - reflexivity.
  - reflexivity.
  - vm_compute. reflexivity.
Defined.

(** What the first edge of each arrival on the tetrahedron meets: the
    substitutes in the order they are tried, which of them are legal, and
    whether the endpoints are boundary vertices. On the closed edge the
    search returns from the second forced duplication, before the last
    resort. *)
Lemma arrivals_on_the_tetrahedron :
  (substitutes (copies_ source_arrival) v0 (mkVertex 4) = [(mkVertex 6, mkVertex 4)] ∧
   halfedge_is_legel (mesh_ source_arrival) (mkVertex 6) (mkVertex 4) = true) ∧
  (substitutes (copies_ target_arrival) (mkVertex 5) v0 = [(mkVertex 5, mkVertex 6)] ∧
   halfedge_is_legel (mesh_ target_arrival) (mkVertex 5) (mkVertex 6) = true) ∧
  (substitutes (copies_ reverse_arrival) v1 v0
     = [(mkVertex 7, v0); (v1, mkVertex 6); (mkVertex 7, mkVertex 6)] ∧
   halfedge_is_legel (mesh_ reverse_arrival) (mkVertex 7) v0 = false ∧
   halfedge_is_legel (mesh_ reverse_arrival) v1 (mkVertex 6) = false ∧
   halfedge_is_legel (mesh_ reverse_arrival) (mkVertex 7) (mkVertex 6) = true) ∧
  (substitutes (copies_ closed_edge_arrival) v0 v1 = [] ∧
   is_boundary_v (mesh_ closed_edge_arrival) v0 = false ∧
   is_boundary_v (mesh_ closed_edge_arrival) v1 = false ∧
   halfedge_is_legel
     (mesh_ (duplicated (incr_non_manifold_edges closed_edge_arrival) 0 v0))
     (mkVertex 6) v1 = false ∧
   search_and_duplicate (incr_non_manifold_edges closed_edge_arrival) 0 1
     = Some (Done (duplicated
                     (duplicated (incr_non_manifold_edges closed_edge_arrival) 0 v0) 1 v1))).
Proof. vm_compute. repeat split. Qed.

(** The four arrivals on the tetrahedron: the first edge is settled by a
    duplicate of the source, by a duplicate of the target, by a pair from
    the cross product, and by the two forced duplications. *)
Lemma illegal_edge_resolution_order_witness :
  (find_or_duplicate_edge source_arrival 0 1
     = Some (set_face_vertices [mkVertex 6; mkVertex 4; mkVertex 5]
               (incr_non_manifold_edges source_arrival)) ∧
   ∃ g', find_or_duplicate_edge source_arrival 0 1 = Some g' ∧
     find_or_duplicate_edge_spec source_arrival 0 1 = Some g' ∧
     num_non_manifold_edges_ g' = (num_non_manifold_edges_ source_arrival + 1)%N) ∧
  (find_or_duplicate_edge target_arrival 0 1
     = Some (set_face_vertices [mkVertex 5; mkVertex 6; mkVertex 4]
               (incr_non_manifold_edges target_arrival)) ∧
   ∃ g', find_or_duplicate_edge target_arrival 0 1 = Some g' ∧
     find_or_duplicate_edge_spec target_arrival 0 1 = Some g' ∧
     num_non_manifold_edges_ g' = (num_non_manifold_edges_ target_arrival + 1)%N) ∧
  (find_or_duplicate_edge reverse_arrival 0 1
     = Some (set_face_vertices [mkVertex 7; mkVertex 6; mkVertex 5]
               (incr_non_manifold_edges reverse_arrival)) ∧
   ∃ g', find_or_duplicate_edge reverse_arrival 0 1 = Some g' ∧
     find_or_duplicate_edge_spec reverse_arrival 0 1 = Some g' ∧
     num_non_manifold_edges_ g' = (num_non_manifold_edges_ reverse_arrival + 1)%N) ∧
  (find_or_duplicate_edge closed_edge_arrival 0 1
     = Some (duplicated (duplicated (incr_non_manifold_edges closed_edge_arrival) 0 v0) 1 v1) ∧
   ∃ g', find_or_duplicate_edge closed_edge_arrival 0 1 = Some g' ∧
     find_or_duplicate_edge_spec closed_edge_arrival 0 1 = Some g' ∧
     num_non_manifold_edges_ g' = (num_non_manifold_edges_ closed_edge_arrival + 1)%N).
Proof.
  split_and!; try (vm_compute; reflexivity).
  - apply (illegal_edge_resolution_order source_arrival 0 1 v0 (mkVertex 4));
      [lia | unfold in_range; vm_compute; lia | reflexivity | reflexivity
      | vm_compute; reflexivity].
  - apply (illegal_edge_resolution_order target_arrival 0 1 (mkVertex 5) v0);
      [lia | unfold in_range; vm_compute; lia | reflexivity | reflexivity
      | vm_compute; reflexivity].
  - apply (illegal_edge_resolution_order reverse_arrival 0 1 v1 v0);
      [lia | unfold in_range; vm_compute; lia | reflexivity | reflexivity
      | vm_compute; reflexivity].
  - apply (illegal_edge_resolution_order closed_edge_arrival 0 1 v0 v1);
      [lia | unfold in_range; vm_compute; lia | reflexivity | reflexivity
      | vm_compute; reflexivity].
Defined.

(** In scenario C the edge from the new duplicate of 0 to vertex 1 is
    legal, and vertex 1 is duplicated all the same: the mesh has five
    vertices afterwards, the working list holds the two new ones, and each
    is registered under its original. *)
Lemma last_resort_duplicates_originals_witness :
  halfedge_is_legel
    (mesh_ (duplicated (incr_non_manifold_edges second_arrival) 0 v0))
    (mkVertex 3) v1 = true ∧
  find_or_duplicate_edge second_arrival 0 1
    = Some (duplicated (duplicated (incr_non_manifold_edges second_arrival) 0 v0) 1 v1) ∧
  vertices (mesh_ second_arrival) = [v0; v1; v2] ∧
  vertices (mesh_ (duplicated (duplicated (incr_non_manifold_edges second_arrival) 0 v0) 1 v1))
    = [v0; v1; v2; mkVertex 3; mkVertex 4] ∧
  face_vertices_ (duplicated (duplicated (incr_non_manifold_edges second_arrival) 0 v0) 1 v1)
    = [mkVertex 3; mkVertex 4; v2] ∧
  copies_ (duplicated (duplicated (incr_non_manifold_edges second_arrival) 0 v0) 1 v1)
    = {[ v0 := [mkVertex 3]; v1 := [mkVertex 4] ]}.
Proof.
  split; [vm_compute; reflexivity |].
  split; [| split_and!; vm_compute; reflexivity].
  apply (last_resort_duplicates_originals second_arrival 0 1 v0 v1
           (incr_non_manifold_edges second_arrival) v0 v1 v0 v1).
  - lia.
  - reflexivity.
  - reflexivity.
  - vm_compute. reflexivity.
  - vm_compute. reflexivity.
  - reflexivity.
  - reflexivity.
  - reflexivity.
  - reflexivity.
  - reflexivity.
  - reflexivity.
Defined.

Lemma add_face_rejects_witness :
  (∃ g', add_face three_vertices [0; 1]%N = Some (g', invalid_face) ∧
     num_faces_less_three_vertices_ g' = 1%N ∧ num_faces_duplicated_vertices_ g' = 0%N ∧
     mesh_ g' = mesh_ three_vertices) ∧
  (∃ g', add_face three_vertices [0; 1; 0]%N = Some (g', invalid_face) ∧
     num_faces_duplicated_vertices_ g' = 1%N ∧ num_faces_less_three_vertices_ g' = 0%N ∧
     mesh_ g' = mesh_ three_vertices).
Proof.
  split.
  - destruct (add_face_rejects three_vertices [0; 1]%N) as (g' & Hadd & _ & Hm & _ & _ & _ & _ & Hless & _).
    + left. simpl. lia.
    + exists g'. destruct Hless as [H1 H2]; [simpl; lia |].
      rewrite H1, H2, Hm. repeat split. exact Hadd.
  - destruct (add_face_rejects three_vertices [0; 1; 0]%N) as (g' & Hadd & _ & Hm & _ & _ & _ & _ & _ & Hdup).
    + right. split; [simpl; lia |]. apply has_duplicated_vertices_true. reflexivity.
    + exists g'. destruct Hdup as [H1 H2]; [simpl; lia |].
      rewrite H1, H2, Hm. repeat split. exact Hadd.
Defined.

Lemma add_face_legal_face_witness :
  ∃ g' f, add_face three_vertices [0; 1; 2]%N = Some (g', f) ∧
    (mesh_ g', f) = mesh_add_face (mesh_ three_vertices) [v0; v1; v2] ∧
    face_vertices_ g' = [v0; v1; v2] ∧
    copies_ g' = copies_ three_vertices ∧
    counters g' = counters three_vertices.
Proof.
  apply (add_face_legal_face three_vertices [0; 1; 2]%N).
  - simpl. lia.
  - apply has_duplicated_vertices_false. reflexivity.
  - repeat (constructor; [vm_compute; reflexivity |]). constructor.
Defined.

(** C7: scenario C on the executable mesh, whatever its released storage
    reads as. The mesh puts a vertex at the position it is given. The
    second [add_face([0,1,2])] duplicates vertex 0 and vertex 1 and
    registers the duplicates 3 and 4 under them. The position table has room
    for four entries by then: the duplicate 3 finds room and sits where
    vertex 0 sits; the duplicate 4 makes the table move, its position is
    read through the reference of line 248 after the move, and it sits at
    what the released table reads as, not at the position of vertex 1. *)
Theorem duplicate_misses_position (junk : vec3) :
  add_vertex_keeps_position (Mesh := t) ∧
  add_face (three_vertices_on junk) [0; 1; 2]%N = Some (one_triangle_on junk, mkFace 0) ∧
  add_face (one_triangle_on junk) [0; 1; 2]%N = Some (two_triangles_on junk, mkFace 1) ∧
  copies_ (one_triangle_on junk) = ∅ ∧
  copies_ (two_triangles_on junk) = {[ v0 := [mkVertex 3]; v1 := [mkVertex 4] ]} ∧
  points (mesh_ (two_triangles_on junk)) v0 = (0, 0, 0) ∧
  points (mesh_ (two_triangles_on junk)) (mkVertex 3) = (0, 0, 0) ∧
  points (mesh_ (two_triangles_on junk)) v1 = (1, 0, 0) ∧
  points (mesh_ (two_triangles_on junk)) (mkVertex 4) = junk.
Proof. split; [apply keeps_position |]. vm_compute. repeat split. Qed.

(** Scenario B: the stray vertex is deleted and reported, once. *)
Lemma finish_deletes_and_reports_witness :
  mesh_ (finish triangle_and_stray).1
    = compact (remove_vertex (mesh_ triangle_and_stray) (mkVertex 3)) ∧
  num_isolated_vertices_ (finish triangle_and_stray).1 = 1%N ∧
  num_non_manifold_vertices_ (finish triangle_and_stray).1 = 0%N ∧
  is_Some (finish triangle_and_stray).2.
Proof.
  destruct (finish_deletes_and_reports triangle_and_stray isolated_is_local
              triangle_and_stray_in_session) as (Hm & Hiso & Hnmv & _ & _ & _ & _ & Hmsg).
  split; [rewrite Hm; vm_compute; reflexivity |].
  split; [rewrite Hiso; vm_compute; reflexivity |].
  split; [rewrite Hnmv; vm_compute; reflexivity |].
  apply Hmsg. vm_compute. constructor. discriminate.
Defined.


(** Vertex 5 is registered as a duplicate of vertex 0 and would make the
    edge to vertex 4 legal; position 0 of the working list holds vertex 3,
    which has no duplicates of its own, so vertex 5 is never tried: the edge
    is counted and left as it is. *)
Example registered_duplicate_not_consulted :
  input_face_vertices_ spare_duplicate !! 0%nat = Some v0 ∧
  face_vertices_ spare_duplicate !! 0%nat = Some (mkVertex 3) ∧
  face_vertices_ spare_duplicate !! 1%nat = Some (mkVertex 4) ∧
  copies_ spare_duplicate !! v0 = Some [mkVertex 3; mkVertex 5] ∧
  copies_ spare_duplicate !! mkVertex 3 = None ∧
  halfedge_is_legel (mesh_ spare_duplicate) (mkVertex 3) (mkVertex 4) = false ∧
  halfedge_is_legel (mesh_ spare_duplicate) (mkVertex 5) (mkVertex 4) = true ∧
  find_or_duplicate_edge spare_duplicate 0 1 = Some (incr_non_manifold_edges spare_duplicate).
Proof. repeat split; vm_compute; reflexivity. Qed.

(** Scenario B, the message itself. *)
Example one_isolated_vertex_message :
  (finish triangle_and_stray).2
    = Some ("mesh has topological issues:" +:+ newline_tab +:+ "1 isolated vertices (removed)").
Proof. vm_compute. reflexivity. Qed.

End ScenarioFacts.

(** ** The executable mesh keeps its vertices *)

Module PolygonMeshMoreFacts.
Import PolygonMesh.

Lemma elem_of_live_vertices (m : t) (w : Vertex) :
  w ∈ live_vertices m ↔
  ∃ i, w = mkVertex (Z.of_nat i) ∧ snd <$> vertex_data m !! i = Some false.
Proof.
  unfold live_vertices. rewrite list_elem_of_fmap. split.
  - intros (i & -> & [Hi _]%list_elem_of_filter). eauto.
  - intros (i & -> & Hi). exists i. split; [done |].
    apply list_elem_of_filter. split; [done |]. apply elem_of_seq.
    destruct (vertex_data m !! i) eqn:Hl; [| done].
    apply lookup_lt_Some in Hl. lia.
Qed.

Lemma insert_vertex_keeps (m : t) (p : vec3) (w : Vertex) :
  w ∈ live_vertices m → w ∈ live_vertices (insert_vertex m p).1.
Proof.
  intros (i & -> & Hl)%elem_of_live_vertices.
  destruct (vertex_data m !! i) as [d|] eqn:Hd; [| done].
  apply elem_of_live_vertices. exists i. split; [done |]. simpl.
  by rewrite (lookup_app_l_Some _ _ _ _ Hd).
Qed.

Lemma insert_vertex_new (m : t) (p : vec3) :
  ((insert_vertex m p).2 ∉ live_vertices m) ∧
  ((insert_vertex m p).2 ∈ live_vertices (insert_vertex m p).1).
Proof.
  unfold insert_vertex. simpl. split.
  - intros (i & [= Hi] & Hl)%elem_of_live_vertices.
    apply Nat2Z.inj in Hi as <-. by rewrite lookup_ge_None_2 in Hl.
  - apply elem_of_live_vertices. exists (length (vertex_data m)). split; [done |]. simpl.
    by rewrite lookup_app_r, Nat.sub_diag.
Qed.

Lemma insertion_keeps_vertices : vertex_insertion_keeps_vertices (Mesh := t).
Proof.
  split.
  - intros m p w. apply insert_vertex_keeps.
  - intros m o w. apply insert_vertex_keeps.
Qed.

Lemma duplicate_is_new : duplicate_is_new_vertex (Mesh := t).
Proof. intros m o. apply insert_vertex_new. Qed.

Lemma face_insertion_keeps : face_insertion_keeps_vertices (Mesh := t).
Proof.
  intros m vs w Hw. simpl. unfold insert_face.
  destruct (_ && _); [| done]. exact Hw.
Qed.

End PolygonMeshMoreFacts.

(** ** The further properties at work on the executable mesh *)

Module MoreScenarioFacts.
Import PolygonMesh PolygonMeshFacts PolygonMeshMoreFacts Scenario MoreScenarios.

Lemma second_insertion : add_face one_triangle [0; 1; 2]%N = Some (two_triangles, mkFace 1).
Proof. vm_compute. reflexivity. Qed.

Lemma no_repeat_012 : NoDup [0; 1; 2]%N.
Proof. by apply has_duplicated_vertices_false. Qed.

Lemma vertices_012 (g : ManifoldGuard t) :
  vertices (mesh_ g) = [v0; v1; v2] → indices_name_vertices (mesh_ g) [0; 1; 2]%N.
Proof.
  intros Hv. unfold indices_name_vertices. rewrite Hv. repeat constructor.
Qed.

Lemma first_insertion : add_face three_vertices [0; 1; 2]%N = Some (one_triangle, mkFace 0).
Proof. vm_compute. reflexivity. Qed.

Lemma distinct_indices_distinct_handles_witness :
  NoDup (vertex_of_index <$> [0; 1; 2]%N) ∧
  ∀ u, u ∈ [0; 1; 2]%N → (u < 2 ^ 31)%N → vertex_of_index u = mkVertex (Z.of_N u).
Proof.
  apply (distinct_indices_distinct_handles [0; 1; 2]%N).
  - repeat constructor.
  - apply no_repeat_012.
Defined.

(** With buffers left over from another face, of lengths 1 and 2:
    [add_face] has its result, and edge resolution asked for position 2 has
    none. *)
Lemma add_face_reads_in_bounds_witness :
  (∃ g' f, add_face stale_buffers [0; 1; 2]%N = Some (g', f)) ∧
  find_or_duplicate_edge stale_buffers 0 2 = None.
Proof.
  destruct (add_face_reads_in_bounds (Mesh := t)) as [Hresult Hnone].
  split; [apply Hresult |]. apply Hnone. right. simpl. lia.
Defined.

Lemma accepted_face_buffers_witness :
  input_face_vertices_ two_triangles = vertex_of_index <$> [0; 1; 2]%N ∧
  length (face_vertices_ two_triangles) = length [0; 1; 2]%N ∧
  ∃ m, (mesh_ two_triangles, mkFace 1) = mesh_add_face m (face_vertices_ two_triangles).
Proof.
  apply (accepted_face_buffers one_triangle [0; 1; 2]%N two_triangles (mkFace 1)).
  - simpl. lia.
  - apply no_repeat_012.
  - apply second_insertion.
Defined.

Lemma add_face_ignores_stale_buffers_witness :
  add_face stale_buffers [0; 1; 2]%N = add_face one_triangle [0; 1; 2]%N.
Proof.
  apply (add_face_ignores_stale_buffers one_triangle [0; 1; 2]%N [mkVertex 7]
           [mkVertex 8; mkVertex 9]).
  - simpl. lia.
  - apply no_repeat_012.
Defined.

Lemma accepted_face_counters_witness :
  num_faces_less_three_vertices_ two_triangles = num_faces_less_three_vertices_ one_triangle ∧
  num_faces_duplicated_vertices_ two_triangles = num_faces_duplicated_vertices_ one_triangle ∧
  (num_non_manifold_edges_ one_triangle ≤ num_non_manifold_edges_ two_triangles
     ≤ num_non_manifold_edges_ one_triangle + N.of_nat (length [0; 1; 2]%N))%N ∧
  (num_non_manifold_edges_ two_triangles = num_non_manifold_edges_ one_triangle ↔
   Forall (λ e, halfedge_is_legel (mesh_ one_triangle) e.1 e.2 = true)
     (cyclic_edges (vertex_of_index <$> [0; 1; 2]%N))).
Proof.
  apply (accepted_face_counters one_triangle [0; 1; 2]%N two_triangles (mkFace 1)).
  - simpl. lia.
  - apply no_repeat_012.
  - apply second_insertion.
Defined.

Lemma resolution_touches_two_positions_witness :
  only_positions_touched 0 1 second_arrival first_edge_resolved ∧
  input_face_vertices_ first_edge_resolved = input_face_vertices_ second_arrival.
Proof.
  apply (resolution_touches_two_positions second_arrival 0 1 first_edge_resolved).
  vm_compute. reflexivity.
Defined.

Lemma add_face_registers_under_callers_vertices_witness :
  copies_ two_triangles !! mkVertex 3 = copies_ one_triangle !! mkVertex 3.
Proof.
  apply (add_face_registers_under_callers_vertices one_triangle [0; 1; 2]%N
           two_triangles (mkFace 1)).
  - apply second_insertion.
  - vm_compute. intros H. repeat (apply elem_of_cons in H as [H | H]; [discriminate |]).
    by apply elem_of_nil in H.
Defined.

Lemma accepted_face_only_inserts_copies_witness :
  ∃ os, Forall (λ o, o ∈ vertex_of_index <$> [0; 1; 2]%N) os ∧
    (mesh_ two_triangles, mkFace 1)
      = mesh_add_face (insert_copies (mesh_ one_triangle) os) (face_vertices_ two_triangles).
Proof.
  apply (accepted_face_only_inserts_copies one_triangle [0; 1; 2]%N two_triangles (mkFace 1)).
  - simpl. lia.
  - apply no_repeat_012.
  - apply second_insertion.
Defined.

Lemma session_invariants_witness :
  length (input_face_vertices_ triangle_and_stray) = length (face_vertices_ triangle_and_stray) ∧
  (∀ k l, copies_ triangle_and_stray !! k = Some l → l ≠ []) ∧
  num_isolated_vertices_ triangle_and_stray = 0%N ∧
  num_non_manifold_vertices_ triangle_and_stray = 0%N.
Proof.
  apply (session_invariants triangle_and_stray).
  apply ScenarioFacts.triangle_and_stray_in_session.
Defined.

Lemma resolution_outcomes_witness :
  legal_at first_edge_resolved 0 1 ∨
  ∃ g5, search_and_duplicate (incr_non_manifold_edges second_arrival) 0 1 = Some (Next g5) ∧
    last_resort g5 0 1 = Some first_edge_resolved.
Proof.
  apply (resolution_outcomes second_arrival 0 1 first_edge_resolved).
  - lia.
  - vm_compute. reflexivity.
Defined.

(** The vertices the guard holds after scenario C are vertices of the mesh. *)
Lemma handles_stay_in_mesh_witness : handles_in_mesh two_triangles.
Proof.
  destruct (handles_stay_in_mesh (Mesh := t) insertion_keeps_vertices duplicate_is_new
              face_insertion_keeps) as (Hbegin & Hvertex & Hface).
  apply (Hface one_triangle [0; 1; 2]%N two_triangles (mkFace 1));
    [by apply vertices_012 | apply second_insertion |].
  apply (Hface three_vertices [0; 1; 2]%N one_triangle (mkFace 0));
    [by apply vertices_012 | apply first_insertion |].
  change (handles_in_mesh (add_vertices fresh_guard [(0, 0, 0); (1, 0, 0); (0, 1, 0)])).
  unfold add_vertices. cbn [foldl]. do 3 apply Hvertex. apply Hbegin.
Defined.

Lemma inserted_corners_are_copies_witness :
  ∃ m, (mesh_ two_triangles, mkFace 1) = mesh_add_face m (face_vertices_ two_triangles) ∧
    length (face_vertices_ two_triangles) = length [0; 1; 2]%N ∧
    ∀ i u v, [0; 1; 2]%N !! i = Some u → face_vertices_ two_triangles !! i = Some v →
      copy_of (copies_ two_triangles) (vertex_of_index u) v.
Proof.
  apply (inserted_corners_are_copies one_triangle [0; 1; 2]%N two_triangles (mkFace 1)).
  - simpl. lia.
  - apply no_repeat_012.
  - apply second_insertion.
Defined.

(** After scenario C every duplicate is registered once. *)
Lemma duplicates_are_registered_once_witness :
  handles_in_mesh two_triangles ∧ registered_once two_triangles.
Proof.
  destruct (duplicates_are_registered_once (Mesh := t) insertion_keeps_vertices
              duplicate_is_new face_insertion_keeps) as (Hbegin & Hvertex & Hface).
  apply (Hface one_triangle [0; 1; 2]%N two_triangles (mkFace 1));
    [by apply vertices_012 | apply second_insertion |].
  apply (Hface three_vertices [0; 1; 2]%N one_triangle (mkFace 0));
    [by apply vertices_012 | apply first_insertion |].
  change (handles_in_mesh (add_vertices fresh_guard [(0, 0, 0); (1, 0, 0); (0, 1, 0)]) ∧
          registered_once (add_vertices fresh_guard [(0, 0, 0); (1, 0, 0); (0, 1, 0)])).
  unfold add_vertices. cbn [foldl]. do 3 apply Hvertex. apply Hbegin.
Defined.

(** Scenario C only adds to the copy relation, a further duplicate of
    vertex 0 goes behind the first, and [begin] empties the relation. *)
Lemma copy_relation_grows_witness :
  copies_grow (copies_ one_triangle) (copies_ two_triangles) ∧
  copies_ (copy_vertex two_triangles v0).1 !! v0 = Some [mkVertex 3; mkVertex 5] ∧
  copies_ (begin two_triangles) = ∅.
Proof.
  destruct (copy_relation_grows (Mesh := t)) as (Hcopy & _ & Hface & _ & Hbegin).
  split; [apply (Hface one_triangle [0; 1; 2]%N two_triangles (mkFace 1)), second_insertion |].
  split; [| apply Hbegin].
  destruct (Hcopy two_triangles v0) as (_ & Hreg & _). rewrite Hreg.
  vm_compute. reflexivity.
Defined.

End MoreScenarioFacts.
